(** * Field usage tracker: a shallow embedding of [field_usage_tracker.py]

    The tracker asks a remote metadata service where the fields of an
    object are referenced, merges the answers of six collectors into one
    index per object, caches that index, and renders one field's entry as
    text.  The development follows the Python source function by function.

    Conventions of the embedding:
    - Python [str] is [string]; texts are taken over ASCII (a byte above
      127 is kept as it is and counts as no letter, digit or space).
    - A JSON document returned by the remote service is a [value]: null,
      string, array or object.  Numbers and booleans do not occur in the
      columns the collectors read and are left out.
    - Python exceptions are values of [exn]; every operation that can raise
      returns a [result].
    - The remote service is a pair of functions of the calls made so far,
      so that it may answer the same request differently over time.
    - The status sink is a total logger: [_log_status] appends an entry when
      a callback is attached and never raises. *)

From stdpp Require Import gmap strings list fin_maps sorting.
From Stdlib Require Import Ascii.

Open Scope string_scope.
Open Scope list_scope.
Open Scope stdpp_scope.

(** ** Characters and strings *)

Module Text.

Definition code (c : ascii) : N := N_of_ascii c.

Definition is_upper (c : ascii) : bool := (65 <=? code c)%N && (code c <=? 90)%N.
Definition is_lower (c : ascii) : bool := (97 <=? code c)%N && (code c <=? 122)%N.
Definition is_digit (c : ascii) : bool := (48 <=? code c)%N && (code c <=? 57)%N.

(** [[A-Za-z]] *)
Definition is_letter (c : ascii) : bool := is_upper c || is_lower c.

(** [[A-Za-z0-9_]], which is also what [\w] and [\b] look at on ASCII text. *)
Definition is_word (c : ascii) : bool := is_letter c || is_digit c || (code c =? 95)%N.

(** [str.isspace] on one ASCII character: tab, LF, VT, FF, CR, the four
    separators 28..31 and the blank. *)
Definition is_space (c : ascii) : bool :=
  ((9 <=? code c)%N && (code c <=? 13)%N)
  || ((28 <=? code c)%N && (code c <=? 31)%N)
  || (code c =? 32)%N.

Definition newline : string := String "010"%char "".

Fixpoint starts_with (p s : string) : bool :=
  match p, s with
  | EmptyString, _ => true
  | String a p', String b s' => if Ascii.eqb a b then starts_with p' s' else false
  | String _ _, EmptyString => false
  end.

(** [needle in hay] on two strings. *)
Fixpoint contains (hay needle : string) : bool :=
  starts_with needle hay
  || match hay with
     | EmptyString => false
     | String _ hay' => contains hay' needle
     end.

(** [sep.join(parts)] *)
Fixpoint join (sep : string) (parts : list string) : string :=
  match parts with
  | [] => ""
  | [p] => p
  | p :: rest => p +:+ sep +:+ join sep rest
  end.

Fixpoint lstrip (s : string) : string :=
  match s with
  | EmptyString => ""
  | String c s' => if is_space c then lstrip s' else s
  end.

Fixpoint rstrip (s : string) : string :=
  match s with
  | EmptyString => ""
  | String c s' =>
      match rstrip s' with
      | EmptyString => if is_space c then "" else String c ""
      | t => String c t
      end
  end.

(** [s.strip()] *)
Definition strip (s : string) : string := lstrip (rstrip s).

Fixpoint chars (s : string) : list ascii :=
  match s with
  | EmptyString => []
  | String c s' => c :: chars s'
  end.

Fixpoint mem_char (c : ascii) (s : string) : bool :=
  match s with
  | EmptyString => false
  | String d s' => Ascii.eqb c d || mem_char c s'
  end.

Definition hex_digit (upper : bool) (n : N) : ascii :=
  if (n <? 10)%N then ascii_of_N (48 + n)
  else ascii_of_N ((if upper then 55 else 87) + n).

(** The two hexadecimal digits of a byte. *)
Definition hex2 (upper : bool) (c : ascii) : string :=
  String (hex_digit upper (code c / 16)) (String (hex_digit upper (code c mod 16)) "").

End Text.

(** ** [urllib.parse.quote] with its default [safe='/'] *)

Definition always_safe (c : ascii) : bool :=
  Text.is_letter c || Text.is_digit c
  || Text.mem_char c "_.-~".

Definition quote_char (c : ascii) : string :=
  if always_safe c || Ascii.eqb c "/"%char then String c ""
  else String "%"%char (Text.hex2 true c).

Fixpoint quote (s : string) : string :=
  match s with
  | EmptyString => ""
  | String c s' => quote_char c +:+ quote s'
  end.

(** A string in which nothing is left to encode: every character is one
    that [quote] keeps, or the [%] of an escape. *)
Definition quoted_char (c : ascii) : bool :=
  always_safe c || Ascii.eqb c "/"%char || Ascii.eqb c "%"%char.

Definition is_quoted (s : string) : bool := forallb quoted_char (Text.chars s).

(** ** Exceptions and results *)

Inductive exn : Type :=
| AttributeError
| TypeError
| KeyError
| RemoteError (msg : string).

Inductive result (A : Type) : Type :=
| Ok (a : A)
| Raise (e : exn).
Arguments Ok {A} a.
Arguments Raise {A} e.

Definition rbind {A B} (r : result A) (k : A → result B) : result B :=
  match r with
  | Ok a => k a
  | Raise e => Raise e
  end.

Notation "'let?' x := r 'in' k" := (rbind r (fun x => k))
  (at level 10, x pattern, r at level 100, k at level 200) : stdpp_scope.

Fixpoint rmap {A B} (f : A → result B) (l : list A) : result (list B) :=
  match l with
  | [] => Ok []
  | x :: l' => let? y := f x in let? ys := rmap f l' in Ok (y :: ys)
  end.

(** ** JSON values and the Python operations the tracker applies to them *)

Inductive value : Type :=
| VNone
| VStr (s : string)
| VList (l : list value)
| VDict (d : list (string * value)).

(** A parsed JSON object has distinct keys; lookup takes the first. *)
Fixpoint assoc {A} (k : string) (d : list (string * A)) : option A :=
  match d with
  | [] => None
  | (k', v) :: d' => if String.eqb k k' then Some v else assoc k d'
  end.

(** [v.get(key, dflt)]: only a dict has the method. *)
Definition py_get (v : value) (key : string) (dflt : value) : result value :=
  match v with
  | VDict d => Ok (default dflt (assoc key d))
  | _ => Raise AttributeError
  end.

(** [v[key]] with a string key. *)
Definition py_getitem (v : value) (key : string) : result value :=
  match v with
  | VDict d => match assoc key d with Some x => Ok x | None => Raise KeyError end
  | _ => Raise TypeError
  end.

(** Truth value: [None], [''], [[]] and [{}] are false. *)
Definition py_truthy (v : value) : bool :=
  match v with
  | VNone => false
  | VStr s => negb (String.eqb s "")
  | VList l => negb (Nat.eqb (length l) 0)
  | VDict d => negb (Nat.eqb (length d) 0)
  end.

(** [for x in v]: a list yields its elements, a string its characters, a
    dict its keys; [None] is not iterable. *)
Definition py_iter (v : value) : result (list value) :=
  match v with
  | VNone => Raise TypeError
  | VStr s => Ok (map (λ c, VStr (String c "")) (Text.chars s))
  | VList l => Ok l
  | VDict d => Ok (map (λ kv, VStr kv.1) d)
  end.

(** [a == b]; dicts compare without regard to the order of their keys. *)
Fixpoint py_eq (a b : value) : bool :=
  match a, b with
  | VNone, VNone => true
  | VStr s, VStr t => String.eqb s t
  | VList l, VList m =>
      (fix go (l m : list value) : bool :=
         match l, m with
         | [], [] => true
         | x :: l', y :: m' => py_eq x y && go l' m'
         | _, _ => false
         end) l m
  | VDict d, VDict e =>
      Nat.eqb (length d) (length e)
      && (fix go (d : list (string * value)) : bool :=
            match d with
            | [] => true
            | (k, v) :: d' =>
                match assoc k e with
                | Some w => py_eq v w
                | None => false
                end && go d'
            end) d
  | _, _ => false
  end.

(** [x in container] *)
Definition py_in (x container : value) : result bool :=
  match container with
  | VStr hay =>
      match x with
      | VStr needle => Ok (Text.contains hay needle)
      | _ => Raise TypeError
      end
  | VList l => Ok (existsb (py_eq x) l)
  | VDict d =>
      match x with
      | VStr k => Ok (bool_decide (is_Some (assoc k d)))
      | VNone => Ok false
      | _ => Raise TypeError
      end
  | VNone => Raise TypeError
  end.

(** [repr] of a string: single quotes unless the text has a single and no
    double quote (character 34); the quote, the backslash and control
    characters escaped. *)
Definition repr_char (q c : ascii) : string :=
  if Ascii.eqb c q || Ascii.eqb c "\"%char then String "\"%char (String c "")
  else if (Text.code c =? 9)%N then "\t"
  else if (Text.code c =? 10)%N then "\n"
  else if (Text.code c =? 13)%N then "\r"
  else if (Text.code c <? 32)%N || (Text.code c =? 127)%N
       then "\x" +:+ Text.hex2 false c
  else String c "".

Fixpoint repr_chars (q : ascii) (s : string) : string :=
  match s with
  | EmptyString => ""
  | String c s' => repr_char q c +:+ repr_chars q s'
  end.

Definition repr_str (s : string) : string :=
  let q := if Text.mem_char "'"%char s && negb (Text.mem_char "034"%char s)
           then "034"%char else "'"%char in
  String q (repr_chars q s) +:+ String q "".

Fixpoint py_repr (v : value) : string :=
  match v with
  | VNone => "None"
  | VStr s => repr_str s
  | VList l => "[" +:+ Text.join ", " (map py_repr l) +:+ "]"
  | VDict d =>
      "{" +:+ Text.join ", " (map (λ kv, repr_str kv.1 +:+ ": " +:+ py_repr kv.2) d) +:+ "}"
  end.

(** [str(v)], which is what an f-string interpolates. *)
Definition py_str (v : value) : string :=
  match v with
  | VStr s => s
  | _ => py_repr v
  end.

(** ** The field reference extractor (lines 311-324)

    [re.findall(r'\b([A-Za-z][A-Za-z0-9_]*__c)\b', text)].  The matcher
    below is the backtracking reading of that pattern: a word boundary, one
    letter, a greedy run of word characters that gives characters back
    until [__c] and a closing word boundary follow. *)

Module Regex.

Definition is_word_opt (c : option ascii) : bool :=
  match c with
  | Some c => Text.is_word c
  | None => false
  end.

(** [\b] between the character before and the character after. *)
Definition word_boundary (before after : option ascii) : bool :=
  xorb (is_word_opt before) (is_word_opt after).

Definition first_char (s : string) : option ascii :=
  match s with
  | EmptyString => None
  | String c _ => Some c
  end.

(** [__c\b] at the head of [s]. *)
Definition suffix_here (s : string) : option string :=
  match s with
  | String c1 (String c2 (String c3 rest)) =>
      if Ascii.eqb c1 "_" && Ascii.eqb c2 "_" && Ascii.eqb c3 "c"
         && word_boundary (Some c3) (first_char rest)
      then Some "__c" else None
  | _ => None
  end.

(** [[A-Za-z0-9_]*__c\b]: take one more character when possible, and
    fall back to closing here when the longer attempts fail. *)
Fixpoint star_then_suffix (s : string) : option string :=
  match s with
  | EmptyString => suffix_here s
  | String c s' =>
      if Text.is_word c then
        match star_then_suffix s' with
        | Some m => Some (String c m)
        | None => suffix_here s
        end
      else suffix_here s
  end.

(** The whole pattern at the head of [s], [before] being the character
    that precedes it. *)
Definition match_here (before : option ascii) (s : string) : option string :=
  match s with
  | EmptyString => None
  | String c s' =>
      if word_boundary before (Some c) && Text.is_letter c
      then String c <$> star_then_suffix s'
      else None
  end.

(** The left-to-right scan of [findall]: on a match the token is kept and
    the search resumes at its end ([skip] counts the characters of the
    match still to be passed); otherwise it moves one character on. *)
Fixpoint scan (skip : nat) (before : option ascii) (s : string) : list string :=
  match s with
  | EmptyString => []
  | String c s' =>
      match skip with
      | S k => scan k (Some c) s'
      | O =>
          match match_here before s with
          | Some m => m :: scan (String.length m - 1) (Some c) s'
          | None => scan 0 (Some c) s'
          end
      end
  end.

Definition findall (s : string) : list string := scan 0 None s.

End Regex.

(** [fields = []; fields.extend(re.findall(...)); return fields].  The
    object name is not used.  [re.findall] accepts a string only. *)
Definition _extract_fields_from_text (text : value) (object_name : string)
  : result (list string) :=
  match text with
  | VStr s => Ok (Regex.findall s)
  | _ => Raise TypeError
  end.

(** ** Sets of entity names and the mapping a collector builds *)

(** What a set may hold of the values above: [None] or a string. *)
Abbreviation name := (option string).

Definition py_hash (v : value) : result name :=
  match v with
  | VNone => Ok None
  | VStr s => Ok (Some s)
  | _ => Raise TypeError
  end.

(** A set, its elements in the order they came in. *)
Definition set_add (x : name) (s : list name) : list name :=
  if bool_decide (x ∈ s) then s else s ++ [x].

(** [Dict[str, Set[str]]], in insertion order ([_merge_usage_data]
    iterates over it). *)
Abbreviation field_usage := (list (string * list name)).

Definition fu_get (k : string) (fu : field_usage) : option (list name) := assoc k fu.

Fixpoint fu_alter (f : list name → list name) (k : string) (fu : field_usage) : field_usage :=
  match fu with
  | [] => []
  | (k', s) :: fu' =>
      if String.eqb k k' then (k', f s) :: fu' else (k', s) :: fu_alter f k fu'
  end.

(** [if field_key not in field_usage: field_usage[field_key] = set()] *)
Definition fu_setdefault (k : string) (fu : field_usage) : field_usage :=
  match fu_get k fu with
  | Some _ => fu
  | None => fu ++ [(k, [])]
  end.

(** Code that mutates an object in place and may raise: the caller still
    sees the mutations made before the exception.  A collector body mutates
    its local [field_usage]; [_merge_usage_data] mutates the index. *)
Definition mut (S A : Type) : Type := S → S * result A.

Definition bret {S A} (a : A) : mut S A := λ s, (s, Ok a).

Definition bbind {S A B} (m : mut S A) (k : A → mut S B) : mut S B :=
  λ s, match m s with
       | (s', Ok a) => k a s'
       | (s', Raise e) => (s', Raise e)
       end.

Definition blift {S A} (r : result A) : mut S A := λ s, (s, r).

Notation "'do' x <- m ; k" := (bbind m (fun x => k))
  (at level 10, x pattern, m at level 100, k at level 200) : stdpp_scope.

(** [for x in xs: step x] *)
Fixpoint for_each {S A} (step : A → mut S unit) (xs : list A) : mut S unit :=
  match xs with
  | [] => bret tt
  | x :: xs' => do _ <- step x; for_each step xs'
  end.

Abbreviation body := (mut (list (string * list (option string)))).

(** The three lines every collector uses to record an entity:
    [if field_key not in field_usage: field_usage[field_key] = set()]
    then [field_usage[field_key].add(entity)].  [add] raises on an
    unhashable entity, after the empty set has been stored. *)
Definition record_usage (field_key : string) (entity : value) : body unit :=
  λ fu,
    let fu1 := fu_setdefault field_key fu in
    match py_hash entity with
    | Ok n => (fu_alter (set_add n) field_key fu1, Ok tt)
    | Raise e => (fu1, Raise e)
    end.

(** [f"{object_name}.{field}"] *)
Definition field_key_of (object_name : string) (field : value) : string :=
  object_name +:+ "." +:+ py_str field.

(** ** The tracker, the remote service and the state *)

(** One call to the remote service: [sf.restful(url, method='GET')] or
    [getattr(sf, object_name).describe()]. *)
Inductive call : Type :=
| Restful (url : string)
| Describe (object_name : string).

(** The entries the tracker hands to [_log_status], one constructor per
    message of the source, with the exception it interpolates. *)
Inductive log_entry : Type :=
| LogBuilding (object_name : string)
| LogBuilt
| LogIncomplete (e : exn)
| LogToolingError (e : exn)
| LogCouldNotQuery (what : string) (e : exn).

(** [self.sf] and [self.status_callback].  An answer may depend on the
    calls made before it. *)
Record tracker : Type := {
  sf_restful : list call → string → result value;
  sf_describe : list call → string → result value;
  status_callback : bool
}.

(** One field's entry: category to entity names. *)
Abbreviation usage_entry := (gmap string (list name)).
(** One object's index: field key to entry. *)
Abbreviation usage_index := (gmap string (gmap string (list name))).

(** [self.usage_cache], with the sink's log and the calls made so far. *)
Record state : Type := {
  usage_cache : gmap string (gmap string (gmap string (list name)));
  log : list log_entry;
  calls : list call
}.

Definition initial_state : state :=
  {| usage_cache := ∅; log := []; calls := [] |}.

Definition set_cache (object_name : string) (idx : usage_index) (st : state) : state :=
  {| usage_cache := <[object_name := idx]> (usage_cache st);
     log := log st; calls := calls st |}.

Section Tracker.

Variable self : tracker.

(** Lines 326-329. *)
Definition _log_status (message : log_entry) (st : state) : state :=
  if status_callback self
  then {| usage_cache := usage_cache st; log := log st ++ [message]; calls := calls st |}
  else st.

Definition restful (url : string) (st : state) : result value * state :=
  (sf_restful self (calls st) url,
   {| usage_cache := usage_cache st; log := log st; calls := calls st ++ [Restful url] |}).

Definition describe (object_name : string) (st : state) : result value * state :=
  (sf_describe self (calls st) object_name,
   {| usage_cache := usage_cache st; log := log st;
      calls := calls st ++ [Describe object_name] |}).

(** Lines 108-116. *)
Definition tooling_url (soql : string) : string := "tooling/query/?q=" +:+ quote soql.

Definition _tooling_query (soql : string) (st : state) : value * state :=
  match restful (tooling_url soql) st with
  | (Ok response, st1) => (response, st1)
  | (Raise e, st1) =>
      (VDict [("records", VList [])], _log_status (LogToolingError e) st1)
  end.

(** The end of every collector: [except Exception as e: log] and
    [return field_usage]. *)
Definition finish (what : string) (out : field_usage * result unit) (st : state)
  : field_usage * state :=
  match out with
  | (fu, Ok _) => (fu, st)
  | (fu, Raise e) => (fu, _log_status (LogCouldNotQuery what e) st)
  end.

(** *** Page layouts (lines 118-137) *)

Definition page_layout_url (object_name : string) : string :=
  "tooling/query/?q=SELECT+Id,Name,EntityDefinitionId+FROM+Layout+WHERE+EntityDefinitionId='"
  +:+ object_name +:+ "'".

Definition page_layout_scan (response : value) : body unit :=
  do records <- blift (py_get response "records" (VList []));
  do layouts <- blift (py_iter records);
  for_each (λ layout,
    do layout_name <- blift (py_get layout "Name" (VStr ""));
    do layout_id <- blift (py_get layout "Id" (VStr ""));
    bret tt) layouts.

Definition _get_page_layout_usage (object_name : string) (st : state)
  : field_usage * state :=
  let '(r, st1) := restful (page_layout_url object_name) st in
  finish "page layouts"
    (match r with
     | Ok response => page_layout_scan response []
     | Raise e => ([], Raise e)
     end) st1.

(** *** Validation rules (lines 139-176) *)

Definition validation_soql (object_name : string) : string :=
  "SELECT ValidationName, Metadata FROM ValidationRule WHERE EntityDefinition.QualifiedApiName = '"
  +:+ object_name +:+ "'".

Definition validation_rule_step (object_name : string) (rule : value) : body unit :=
  do rule_name <- blift (py_get rule "ValidationName" (VStr ""));
  do metadata <- blift (py_get rule "Metadata" (VDict []));
  if negb (py_truthy metadata) then bret tt else
  do error_field <- blift (py_get metadata "errorDisplayField" VNone);
  do _ <- (if py_truthy error_field
           then record_usage (field_key_of object_name error_field) rule_name
           else bret tt);
  do formula <- blift (py_get metadata "errorConditionFormula" (VStr ""));
  if py_truthy formula then
    do fields <- blift (_extract_fields_from_text formula object_name);
    for_each (λ field, record_usage (field_key_of object_name (VStr field)) rule_name)
             fields
  else bret tt.

Definition validation_scan (object_name : string) (result : value) : body unit :=
  do records <- blift (py_get result "records" (VList []));
  do rules <- blift (py_iter records);
  for_each (validation_rule_step object_name) rules.

Definition _get_validation_rule_usage (object_name : string) (st : state)
  : field_usage * state :=
  let '(result, st1) := _tooling_query (validation_soql object_name) st in
  finish "validation rules" (validation_scan object_name result []) st1.

(** *** Direct field-name matching (lines 178-309)

    The four collectors for Apex classes, Apex triggers, Visualforce pages
    and Visualforce components are the same code up to the query, the
    column that holds the text, and the test [object_name not in text],
    which the trigger collector does not make. *)

Definition match_fields (object_name : string) (entity text : value)
  (field_names : list value) : body unit :=
  for_each (λ field_name,
    do hit <- blift (py_in field_name text);
    if hit : bool
    then record_usage (field_key_of object_name field_name) entity
    else bret tt) field_names.

Definition direct_match_step (check_object : bool) (text_column object_name : string)
  (field_names : list value) (record : value) : body unit :=
  do entity <- blift (py_get record "Name" (VStr ""));
  do text <- blift (py_get record text_column (VStr ""));
  if negb (py_truthy text) then bret tt else
  do mentions <- blift (if check_object then py_in (VStr object_name) text else Ok true);
  if negb mentions then bret tt else
  match_fields object_name entity text field_names.

Definition direct_match_scan (check_object : bool) (text_column object_name : string)
  (result obj_describe : value) : body unit :=
  do fields <- blift (py_getitem obj_describe "fields");
  do fields <- blift (py_iter fields);
  do field_names <- blift (rmap (λ field, py_get field "name" (VStr "")) fields);
  do records <- blift (py_get result "records" (VList []));
  do records <- blift (py_iter records);
  for_each (direct_match_step check_object text_column object_name field_names) records.

Definition direct_match_usage (soql : string) (check_object : bool)
  (text_column what object_name : string) (st : state) : field_usage * state :=
  let '(result, st1) := _tooling_query soql st in
  let '(r, st2) := describe object_name st1 in
  finish what
    (match r with
     | Ok obj_describe =>
         direct_match_scan check_object text_column object_name result obj_describe []
     | Raise e => ([], Raise e)
     end) st2.

Definition apex_soql : string := "SELECT Name, Body FROM ApexClass LIMIT 500".
Definition trigger_soql (object_name : string) : string :=
  "SELECT Name, Body FROM ApexTrigger WHERE TableEnumOrId = '" +:+ object_name +:+ "'".
Definition vf_page_soql : string := "SELECT Name, Markup FROM ApexPage LIMIT 500".
Definition vf_component_soql : string := "SELECT Name, Markup FROM ApexComponent LIMIT 500".

Definition _get_apex_usage (object_name : string) :=
  direct_match_usage apex_soql true "Body" "Apex classes" object_name.

Definition _get_trigger_usage (object_name : string) :=
  direct_match_usage (trigger_soql object_name) false "Body" "triggers" object_name.

Definition _get_visualforce_page_usage (object_name : string) :=
  direct_match_usage vf_page_soql true "Markup" "Visualforce pages" object_name.

Definition _get_visualforce_component_usage (object_name : string) :=
  direct_match_usage vf_component_soql true "Markup" "Visualforce components" object_name.

End Tracker.

(** ** Merging, caching and formatting *)

(** [sorted] on entity names.  Strings sort by code point; [None] cannot
    be compared with anything, so a list of two or more elements that
    holds a [None] raises [TypeError]. *)
Definition the_strings (l : list name) : option (list string) :=
  mapM id l.

Definition py_sorted (l : list name) : result (list name) :=
  match l with
  | [] | [_] => Ok l
  | _ =>
      match the_strings l with
      | Some strs => Ok (Some <$> merge_sort String.le strs)
      | None => Raise TypeError
      end
  end.

(** The body of the loop of [_merge_usage_data] (lines 102-106). *)
Definition merge_field (category field_key : string) (items : list name)
  : mut usage_index unit :=
  λ usage_data,
    let usage_data1 :=
      match usage_data !! field_key with
      | Some _ => usage_data
      | None => <[field_key := ∅]> usage_data
      end in
    let entry := default ∅ (usage_data1 !! field_key) in
    let entry1 :=
      match entry !! category with
      | Some _ => entry
      | None => <[category := []]> entry
      end in
    let usage_data2 := <[field_key := entry1]> usage_data1 in
    match py_sorted items with
    | Ok sorted_items =>
        (<[field_key :=
             <[category := default [] (entry1 !! category) ++ sorted_items]> entry1]>
           usage_data2, Ok tt)
    | Raise e => (usage_data2, Raise e)
    end.

(** Lines 99-106. *)
Definition _merge_usage_data (field_usage : field_usage) (category : string)
  : mut usage_index unit :=
  for_each (λ kv, merge_field category kv.1 kv.2) field_usage.

Section Aggregator.

Variable self : tracker.

(** The six collectors in the order of lines 68-90, each with the
    category its result is merged under. *)
Definition collectors : list (string * (string → state → field_usage * state)) :=
  [ ("Validation Rules", _get_validation_rule_usage self);
    ("Apex Classes", _get_apex_usage self);
    ("Apex Triggers", _get_trigger_usage self);
    ("Visualforce Pages", _get_visualforce_page_usage self);
    ("Visualforce Components", _get_visualforce_component_usage self);
    ("Page Layouts", _get_page_layout_usage self) ].

(** The statements of the [try] block before the cache is written: run a
    collector, merge, go on; an exception ends the block. *)
Fixpoint run_collectors (steps : list (string * (string → state → field_usage * state)))
  (object_name : string) (usage_data : usage_index) (st : state)
  : usage_index * result unit * state :=
  match steps with
  | [] => (usage_data, Ok tt, st)
  | (category, collect) :: steps' =>
      let '(field_usage, st1) := collect object_name st in
      match _merge_usage_data field_usage category usage_data with
      | (usage_data1, Ok _) => run_collectors steps' object_name usage_data1 st1
      | (usage_data1, Raise e) => (usage_data1, Raise e, st1)
      end
  end.

(** Lines 61-97. *)
Definition _build_usage_cache_for_object (object_name : string) (st : state) : state :=
  let st0 := _log_status self (LogBuilding object_name) st in
  match run_collectors collectors object_name ∅ st0 with
  | (usage_data, Ok _, st1) =>
      _log_status self LogBuilt (set_cache object_name usage_data st1)
  | (usage_data, Raise e, st1) =>
      set_cache object_name usage_data (_log_status self (LogIncomplete e) st1)
  end.

(** Lines 42-50. *)
Definition section_order : list string :=
  [ "Page Layouts"; "Validation Rules"; "Apex Classes"; "Apex Triggers";
    "Visualforce Pages"; "Visualforce Components" ].

(** [f"- {item}"] *)
Definition bullet (item : name) : string :=
  "- " +:+ match item with Some s => s | None => "None" end.

(** Lines 53-57 for one section. *)
Definition section_lines (usage_data : usage_entry) (section : string)
  : result (list string) :=
  match usage_data !! section with
  | Some (item :: items) =>
      let? sorted_items := py_sorted (item :: items) in
      Ok (section :: (bullet <$> sorted_items) ++ [""])
  | _ => Ok []
  end.

(** Lines 39-59. *)
Definition format_usage (usage_data : usage_entry) : result string :=
  let? sections := rmap (section_lines usage_data) section_order in
  Ok (Text.strip (Text.join Text.newline (concat sections))).

(** Lines 19-59. *)
Definition get_field_usage (object_name field_api_name : string) (st : state)
  : result string * state :=
  let st1 :=
    match usage_cache st !! object_name with
    | Some _ => st
    | None => _build_usage_cache_for_object object_name st
    end in
  let field_key := object_name +:+ "." +:+ field_api_name in
  let usage_data : usage_entry :=
    default ∅ (default ∅ (usage_cache st1 !! object_name) !! field_key) in
  if bool_decide (usage_data = ∅) then (Ok "", st1)
  else (format_usage usage_data, st1).

End Aggregator.

(** Any number of further calls for a cached object. *)
Fixpoint later_calls (self : tracker) (object_name : string) (fields : list string)
  (st : state) : state :=
  match fields with
  | [] => st
  | f :: fields' =>
      later_calls self object_name fields' (get_field_usage self object_name f st).2
  end.

(** [usage_data[field_key][category]], when both keys are present. *)
Definition stored (usage_data : usage_index) (field_key category : string)
  : option (list name) :=
  usage_data !! field_key ≫= λ entry, entry !! category.

(** The index the cache holds for an object (empty when it holds none). *)
Definition cached_index (st : state) (object_name : string) : usage_index :=
  default ∅ (usage_cache st !! object_name).

(** ** Sample responses of the remote service *)

Module Sample.

Definition records (rs : list value) : value := VDict [("records", VList rs)].

Definition entity (text_column : string) (entity_name text : value) : value :=
  VDict [("Name", entity_name); (text_column, text)].

Definition described (field_names : list string) : value :=
  VDict [("fields", VList ((λ f, VDict [("name", VStr f)]) <$> field_names))].

Definition rule (rule_name : value) (error_field formula : value) : value :=
  VDict [("ValidationName", rule_name);
         ("Metadata", VDict [("errorDisplayField", error_field);
                             ("errorConditionFormula", formula)])].

(** A service whose Apex class listing has a class with a null name next
    to a class named [A], both mentioning the object and its fields, and
    one validation rule on [Id]. *)
Definition null_name : tracker := {|
  sf_restful := λ _ url,
    if String.eqb url (tooling_url (validation_soql "Account"))
    then Ok (records [rule (VStr "R1") (VStr "Id") VNone])
    else if String.eqb url (tooling_url apex_soql)
    then Ok (records [entity "Body" VNone (VStr "Account a; a.Name");
                      entity "Body" (VStr "A") (VStr "Account a; a.Name")])
    else Ok (records []);
  sf_describe := λ _ _, Ok (described ["Id"; "Name"]);
  status_callback := true
|}.

(** A service that lists two Apex classes and one trigger and refuses
    every other query; the trigger does not mention the object. *)
Definition two_classes : tracker := {|
  sf_restful := λ _ url,
    if String.eqb url (tooling_url apex_soql)
    then Ok (records [entity "Body" (VStr "B") (VStr "Account a; a.Name");
                      entity "Body" (VStr "A") (VStr "Account a; a.Name; a.Id")])
    else if String.eqb url (tooling_url (trigger_soql "Account"))
    then Ok (records [entity "Body" (VStr "T") (VStr "insert Name")])
    else Raise (RemoteError "unavailable");
  sf_describe := λ _ _, Ok (described ["Id"; "Name"]);
  status_callback := true
|}.

End Sample.

(** ** The report as the specification words it

    The six categories in their display order; for each category present
    and non-empty the category name, one bulleted line per entity name in
    ascending order, and a blank line; trailing whitespace trimmed. *)

Module ReportSpec.

Inductive category : Type :=
| PageLayouts
| ValidationRules
| ApexClasses
| ApexTriggers
| VisualforcePages
| VisualforceComponents.

Definition category_name (c : category) : string :=
  match c with
  | PageLayouts => "Page Layouts"
  | ValidationRules => "Validation Rules"
  | ApexClasses => "Apex Classes"
  | ApexTriggers => "Apex Triggers"
  | VisualforcePages => "Visualforce Pages"
  | VisualforceComponents => "Visualforce Components"
  end.

Definition display_order : list category :=
  [PageLayouts; ValidationRules; ApexClasses; ApexTriggers;
   VisualforcePages; VisualforceComponents].

(** Ascending order, by insertion. *)
Fixpoint insert_ascending (x : string) (l : list string) : list string :=
  match l with
  | [] => [x]
  | y :: l' => if String.leb x y then x :: l else y :: insert_ascending x l'
  end.

Definition ascending (l : list string) : list string := foldr insert_ascending [] l.

Definition section (entry : gmap string (list string)) (c : category) : list string :=
  match entry !! category_name c with
  | Some (n :: names) =>
      category_name c :: ((λ n, "- " +:+ n) <$> ascending (n :: names)) ++ [""]
  | _ => []
  end.

Definition format (entry : gmap string (list string)) : string :=
  Text.rstrip (Text.join Text.newline (concat (section entry <$> display_order))).

End ReportSpec.

(** An entry whose entity names are all strings, as the tracker stores it. *)
Definition entry_of (entry : gmap string (list string)) : usage_entry :=
  (λ names : list string, Some <$> names) <$> entry.

(** The entry of the formatter scenario. *)
Definition Sample_entry : gmap string (list string) :=
  <["Apex Classes" := ["ClassB"; "ClassA"]]> (<["Page Layouts" := ["Layout1"]]> ∅).

(** ** The tokens the extractor returns, said without the regular expression

    The maximal runs of word characters of the text, left to right, that
    start with a letter and end in [__c] after it. *)

Module TokenSpec.

Definition cons_run (w : string) (runs : list string) : list string :=
  match w with
  | EmptyString => runs
  | _ => w :: runs
  end.

(** The run of word characters at the head of the text (empty when the
    text starts with another character) and the runs after it. *)
Fixpoint split_runs (s : string) : string * list string :=
  match s with
  | EmptyString => ("", [])
  | String c s' =>
      let '(w, runs) := split_runs s' in
      if Text.is_word c then (String c w, runs) else ("", cons_run w runs)
  end.

Definition word_runs (s : string) : list string :=
  cons_run (split_runs s).1 (split_runs s).2.

Fixpoint ends_with (suffix s : string) : bool :=
  String.eqb s suffix
  || match s with
     | EmptyString => false
     | String _ s' => ends_with suffix s'
     end.

Definition is_custom_field (w : string) : bool :=
  match w with
  | EmptyString => false
  | String c w' => Text.is_letter c && ends_with "__c" w'
  end.

Definition tokens (s : string) : list string :=
  List.filter is_custom_field (word_runs s).

End TokenSpec.


(** ** Notions the statements about the collectors use *)

(** The entity [x] is recorded under [field_key] in the mapping. *)
Definition recorded (fu : field_usage) (field_key : string) (x : name) : Prop :=
  ∃ items, fu_get field_key fu = Some items ∧ x ∈ items.


Definition is_str (v : value) : bool :=
  match v with
  | VStr _ => true
  | _ => false
  end.

(** The values a collector reads as entity names from a response: the
    given column of every record, [''] where a record lacks it. *)
Definition entity_names (column : string) (response : value) : list value :=
  match py_get response "records" (VList []) with
  | Ok records =>
      match py_iter records with
      | Ok recs =>
          omap (λ rec, match py_get rec column (VStr "") with
                       | Ok e => Some e
                       | Raise _ => None
                       end) recs
      | Raise _ => []
      end
  | Raise _ => []
  end.

(** Every entity name of an answer of the service is a string. *)
Definition names_are_strings (answer : result value) : bool :=
  match answer with
  | Ok response =>
      forallb is_str (entity_names "Name" response)
      && forallb is_str (entity_names "ValidationName" response)
  | Raise _ => true
  end.

(** A mapping as a Python dict of sets: no key twice, no element twice. *)
Definition fu_wf (fu : field_usage) : Prop :=
  NoDup fu.*1 ∧ Forall (λ kv, NoDup kv.2) fu.

(** Every set of the mapping is non-empty and holds strings only. *)
Definition fu_full (fu : field_usage) : Prop :=
  Forall (λ kv, kv.2 ≠ [] ∧ Forall is_Some kv.2) fu.

(** No list of the index is empty. *)
Definition index_full (usage_data : usage_index) : Prop :=
  ∀ field_key category items,
    stored usage_data field_key category = Some items → items ≠ [].

Definition cache_full (st : state) : Prop :=
  ∀ object_name idx, usage_cache st !! object_name = Some idx → index_full idx.

(** A session: the calls [get_field_usage(object, field)] made one after
    the other, from the state a fresh tracker starts in. *)
Fixpoint session (self : tracker) (requests : list (string * string)) (st : state) : state :=
  match requests with
  | [] => st
  | (object_name, field) :: requests' =>
      session self requests' (get_field_usage self object_name field st).2
  end.

(** [sorted(items)] where it does not raise, nothing otherwise. *)
Definition sorted_items (items : list name) : list name :=
  match py_sorted items with
  | Ok l => l
  | Raise _ => []
  end.

(** The requests of a build whose [try] block completes, in order. *)
Definition build_requests (object_name : string) : list call :=
  [ Restful (tooling_url (validation_soql object_name));
    Restful (tooling_url apex_soql); Describe object_name;
    Restful (tooling_url (trigger_soql object_name)); Describe object_name;
    Restful (tooling_url vf_page_soql); Describe object_name;
    Restful (tooling_url vf_component_soql); Describe object_name;
    Restful (page_layout_url object_name) ].

(** ** The four collectors that match field names directly *)

Inductive direct_collector : Type :=
| ApexClassCollector
| ApexTriggerCollector
| VisualforcePageCollector
| VisualforceComponentCollector.

Definition direct_run (self : tracker) (c : direct_collector)
  : string → state → field_usage * state :=
  match c with
  | ApexClassCollector => _get_apex_usage self
  | ApexTriggerCollector => _get_trigger_usage self
  | VisualforcePageCollector => _get_visualforce_page_usage self
  | VisualforceComponentCollector => _get_visualforce_component_usage self
  end.

(** The query text each of them sends. *)
Definition direct_soql (c : direct_collector) (object_name : string) : string :=
  match c with
  | ApexClassCollector => "SELECT Name, Body FROM ApexClass LIMIT 500"
  | ApexTriggerCollector =>
      "SELECT Name, Body FROM ApexTrigger WHERE TableEnumOrId = '" +:+ object_name +:+ "'"
  | VisualforcePageCollector => "SELECT Name, Markup FROM ApexPage LIMIT 500"
  | VisualforceComponentCollector => "SELECT Name, Markup FROM ApexComponent LIMIT 500"
  end.

(** The column that holds the text of an entity. *)
Definition direct_column (c : direct_collector) : string :=
  match c with
  | ApexClassCollector | ApexTriggerCollector => "Body"
  | VisualforcePageCollector | VisualforceComponentCollector => "Markup"
  end.

(** Whether the collector skips a text that does not mention the object. *)
Definition tests_object (c : direct_collector) : bool :=
  match c with
  | ApexTriggerCollector => false
  | _ => true
  end.

(** A well-formed answer: records with a string name and a string text. *)
Definition entities_response (column : string) (entities : list (string * string)) : value :=
  Sample.records ((λ nb, Sample.entity column (VStr nb.1) (VStr nb.2)) <$> entities).

(** ** Notions the further properties use *)

(** [sorted] accepts the list. *)
Definition sortable (items : list name) : Prop := ∃ l, py_sorted items = Ok l.

Definition cache_sortable (st : state) : Prop :=
  ∀ object_name idx field_key category items,
    usage_cache st !! object_name = Some idx →
    stored idx field_key category = Some items → sortable items.

(** The entries a collector writes: a failed query or a failed collector. *)
Definition is_warning (entry : log_entry) : bool :=
  match entry with
  | LogToolingError _ | LogCouldNotQuery _ _ => true
  | _ => false
  end.

(** [after] is [before] followed by warnings only, and by nothing when no
    callback is attached. *)
Definition warnings_only (callback : bool) (before after : list log_entry) : Prop :=
  ∃ extra, after = before ++ extra ∧ forallb is_warning extra = true
           ∧ (callback = false → extra = []).



(** The text the direct collectors put in their warning. *)
Definition direct_label (c : direct_collector) : string :=
  match c with
  | ApexClassCollector => "Apex classes"
  | ApexTriggerCollector => "triggers"
  | VisualforcePageCollector => "Visualforce pages"
  | VisualforceComponentCollector => "Visualforce components"
  end.

(** A service whose listings have a null between two records. *)
Definition Sample_broken_listing : tracker := {|
  sf_restful := λ _ _,
    Ok (Sample.records
          [Sample.entity "Body" (VStr "A") (VStr "Account a; a.Name"); VNone;
           Sample.entity "Body" (VStr "B") (VStr "Account b; b.Name")]);
  sf_describe := λ _ _, Ok (Sample.described ["Name"]);
  status_callback := true
|}.

(** A list of distinct strings in ascending order. *)
Definition ascending_names (items : list name) : Prop :=
  ∃ strs, items = Some <$> strs ∧ Sorted String.le strs ∧ NoDup strs.

(** ** Decoding, to state that [quote] loses nothing *)

Definition hex_value (d : ascii) : N :=
  if Text.is_digit d then (Text.code d - 48)%N else (Text.code d - 55)%N.

(** Percent-decoding: every [%XY] becomes the byte it stands for. *)
Fixpoint unquote (s : string) : string :=
  match s with
  | EmptyString => ""
  | String c rest =>
      if Ascii.eqb c "%" then
        match rest with
        | String h (String l rest') =>
            String (ascii_of_N (16 * hex_value h + hex_value l)) (unquote rest')
        | _ => String c (unquote rest)
        end
      else String c (unquote rest)
  end.

(** * [config.py]: the API version detector

    [requests.get] is a function of the URL and the headers that raises or
    returns a response with a status code and a body that [response.json()]
    parses or fails to parse.  What the functions print is not modelled,
    but the arguments of [print] are evaluated where they can raise. *)

Record http_response : Type := {
  status_code : Z;
  json : result value
}.

Section Config.

Variable requests_get : string → list (string * string) → result http_response.

(** [versions and isinstance(versions, list) and len(versions) > 0] *)
Definition usable_versions (versions : value) : bool :=
  py_truthy versions
  && match versions with VList l => (0 <? length l)%nat | _ => false end.

(** [versions[-1]] on a list. *)
Definition last_item (versions : value) : result value :=
  match versions with
  | VList l => match last l with Some x => Ok x | None => Raise KeyError end
  | _ => Raise TypeError
  end.

(** Lines 36-72.  The [try] block, then the [except] clause. *)
Definition latest_version_attempt (base_url : string) (headers : list (string * string))
  (fallback_version : string) : result value :=
  let url := base_url +:+ "/services/data/" in
  let? response := requests_get url headers in
  if (status_code response =? 200)%Z then
    let? versions := json response in
    if usable_versions versions then
      let? latest := last_item versions in
      let? version := py_get latest "version" (VStr fallback_version) in
      Ok version
    else Ok (VStr fallback_version)
  else Ok (VStr fallback_version).

Definition get_latest_version_from_org (base_url : string) (headers : list (string * string))
  (fallback_version : string) : value :=
  match latest_version_attempt base_url headers fallback_version with
  | Ok version => version
  | Raise _ => VStr fallback_version
  end.

(** Lines 74-95.  The list comprehension inside [print] reads [v['version']]
    of every element before the versions are returned. *)
Definition all_versions_attempt (base_url : string) (headers : list (string * string))
  : result value :=
  let url := base_url +:+ "/services/data/" in
  let? response := requests_get url headers in
  if (status_code response =? 200)%Z then
    let? versions := json response in
    let? items := py_iter versions in
    let? printed := rmap (λ v, py_getitem v "version") items in
    Ok versions
  else Ok (VList []).

Definition get_all_available_versions (base_url : string) (headers : list (string * string))
  : value :=
  match all_versions_attempt base_url headers with
  | Ok versions => versions
  | Raise _ => VList []
  end.

(** Lines 97-114. *)
Definition is_version_supported (base_url : string) (headers : list (string * string))
  (version : string) : bool :=
  match requests_get (base_url +:+ "/services/data/v" +:+ version +:+ "/") headers with
  | Ok response => (status_code response =? 200)%Z
  | Raise _ => false
  end.

End Config.

(** An element of the version list that [v['version']] can read. *)
Definition has_version (v : value) : bool :=
  match py_getitem v "version" with
  | Ok _ => true
  | Raise _ => false
  end.

(** * Counting builds in the log *)

Definition is_building (object_name : string) (entry : log_entry) : bool :=
  match entry with
  | LogBuilding o => String.eqb o object_name
  | _ => false
  end.

(** How often the log says that a build for the object started. *)
Definition builds_logged (object_name : string) (entries : list log_entry) : nat :=
  length (List.filter (is_building object_name) entries).

(** A service that lists one class and whose field catalog cannot be read. *)
Definition Sample_no_catalog : tracker := {|
  sf_restful := λ _ _,
    Ok (Sample.records [Sample.entity "Body" (VStr "A") (VStr "Account a; a.Name")]);
  sf_describe := λ _ _, Raise (RemoteError "no such object");
  status_callback := true
|}.
(** * Properties *)

(** ** Loops *)

Section Loops.

Context {S A : Type}.

(** A property of the mutated object that every iteration keeps holds
    when the loop is left, normally or by an exception. *)
Lemma for_each_invariant (P : S → Prop) (step : A → mut S unit) (xs : list A) (s : S) :
  P s →
  (∀ x s', x ∈ xs → P s' → P (step x s').1) →
  P (for_each step xs s).1.
Proof.
  revert s. induction xs as [|x xs IH]; intros s Hs Hstep; simpl; [done|].
  unfold bbind. specialize (Hstep x s (list_elem_of_here _ _) Hs) as Hx.
  destruct (step x s) as [s1 [[]|e]]; simpl in *; [|done].
  apply IH; [done|]. intros y s' Hy. apply Hstep. by apply list_elem_of_further.
Qed.

Lemma for_each_nil (step : A → mut S unit) (s : S) : for_each step [] s = (s, Ok tt).
Proof. done. Qed.

Lemma for_each_cons (step : A → mut S unit) x xs (s : S) :
  for_each step (x :: xs) s =
  match step x s with
  | (s1, Ok _) => for_each step xs s1
  | (s1, Raise e) => (s1, Raise e)
  end.
Proof. simpl. unfold bbind. by destruct (step x s) as [s1 [[]|e]]. Qed.

End Loops.

(** ** What a collector does to the state *)

Section StateFacts.

Variable self : tracker.

Lemma log_status_cache m st : usage_cache (_log_status self m st) = usage_cache st.
Proof. unfold _log_status. by destruct (status_callback self). Qed.

Lemma log_status_calls m st : calls (_log_status self m st) = calls st.
Proof. unfold _log_status. by destruct (status_callback self). Qed.

Lemma finish_result what out st : (finish self what out st).1 = out.1.
Proof. by destruct out as [fu [[]|e]]. Qed.

Lemma finish_cache what out st : usage_cache (finish self what out st).2 = usage_cache st.
Proof. destruct out as [fu [[]|e]]; simpl; [done|]. apply log_status_cache. Qed.

Lemma tooling_query_cache soql st :
  usage_cache (_tooling_query self soql st).2 = usage_cache st.
Proof.
  unfold _tooling_query, restful.
  destruct (sf_restful self (calls st) (tooling_url soql)); simpl; [done|].
  by rewrite log_status_cache.
Qed.

Lemma set_cache_lookup obj idx st : usage_cache (set_cache obj idx st) !! obj = Some idx.
Proof. apply lookup_insert_eq. Qed.

(** Whichever way the [try] block ends, the index it was building is
    what the cache holds for the object afterwards. *)
Lemma build_cache_lookup obj st :
  usage_cache (_build_usage_cache_for_object self obj st) !! obj =
  Some (run_collectors (collectors self) obj ∅
          (_log_status self (LogBuilding obj) st)).1.1.
Proof.
  unfold _build_usage_cache_for_object.
  destruct (run_collectors _ _ _ _) as [[ud [[]|e]] st1]; simpl.
  - rewrite log_status_cache. apply set_cache_lookup.
  - apply lookup_insert_eq.
Qed.

(** A call for an object that is cached does nothing but read. *)
Lemma get_field_usage_cached obj fld st idx :
  usage_cache st !! obj = Some idx →
  get_field_usage self obj fld st =
  (let usage_data : usage_entry := default ∅ (idx !! (obj +:+ "." +:+ fld)) in
   if bool_decide (usage_data = ∅) then Ok "" else format_usage usage_data, st).
Proof.
  intros Hc. unfold get_field_usage. rewrite Hc. simpl. rewrite Hc. simpl.
  by destruct (bool_decide _).
Qed.

Lemma get_field_usage_state obj fld st :
  (get_field_usage self obj fld st).2 =
  match usage_cache st !! obj with
  | Some _ => st
  | None => _build_usage_cache_for_object self obj st
  end.
Proof. unfold get_field_usage. by destruct (bool_decide _). Qed.

(** The output of a call is read off the index the cache holds for the
    object once the call is over. *)
Lemma get_field_usage_answer obj fld st idx :
  usage_cache (get_field_usage self obj fld st).2 !! obj = Some idx →
  (let usage_data : usage_entry := default ∅ (idx !! (obj +:+ "." +:+ fld)) in
   if bool_decide (usage_data = ∅) then Ok "" else format_usage usage_data,
   (get_field_usage self obj fld st).2)
  = get_field_usage self obj fld st.
Proof.
  rewrite get_field_usage_state. unfold get_field_usage.
  generalize (match usage_cache st !! obj with
              | Some _ => st
              | None => _build_usage_cache_for_object self obj st
              end).
  intros st1 Hidx. rewrite Hidx. cbn [default].
  by destruct (bool_decide _).
Qed.

Lemma get_field_usage_caches obj fld st :
  is_Some (usage_cache (get_field_usage self obj fld st).2 !! obj).
Proof.
  rewrite get_field_usage_state.
  destruct (usage_cache st !! obj) eqn:Hc; [by rewrite Hc|].
  rewrite build_cache_lookup. eauto.
Qed.

End StateFacts.

(** ** Idempotence (C1) *)

(** C1.  Two calls of [get_field_usage] for the same object and field,
    one right after the other, return the same output, and the second call
    leaves the state as it found it: it makes no call to the remote
    service, logs nothing and does not touch the cache.  The object is
    cached after the first call, a call for any other field of it leaves
    the state alone as well, and the state after the pair is the state
    after the single build of the first call when the object was not
    cached, and the state before it otherwise: the collectors ran once or
    not at all. *)
Theorem get_field_usage_idempotent (self : tracker) (object_name field_api_name : string)
    (st : state) :
  let first := get_field_usage self object_name field_api_name st in
  get_field_usage self object_name field_api_name first.2 = first
  ∧ is_Some (usage_cache first.2 !! object_name)
  ∧ (∀ other_field, (get_field_usage self object_name other_field first.2).2 = first.2)
  ∧ (get_field_usage self object_name field_api_name first.2).2
    = match usage_cache st !! object_name with
      | Some _ => st
      | None => _build_usage_cache_for_object self object_name st
      end.
Proof.
  intros first.
  destruct (get_field_usage_caches self object_name field_api_name st) as [idx Hidx].
  fold first in Hidx.
  assert (Hstate : ∀ f, (get_field_usage self object_name f first.2).2 = first.2).
  { intros f. by rewrite get_field_usage_state, Hidx. }
  split_and!; [|by eauto|done|].
  - rewrite (get_field_usage_cached _ _ _ _ _ Hidx).
    subst first. by apply get_field_usage_answer.
  - rewrite Hstate. subst first. by rewrite get_field_usage_state.
Qed.

(** ** A failed build is cached and never retried (C10) *)

Lemma later_calls_cached self obj fields st :
  is_Some (usage_cache st !! obj) → later_calls self obj fields st = st.
Proof.
  intros [idx Hc]. induction fields as [|f fields IH]; simpl; [done|].
  by rewrite get_field_usage_state, Hc.
Qed.

(** C10.  When the [try] block of [_build_usage_cache_for_object] ends in
    an exception, the index as far as it had been built is stored in the
    cache under the object; every later [get_field_usage] for the object
    answers from that index, and no sequence of later calls changes the
    state: no collector runs again. *)
Theorem failed_build_is_cached (self : tracker) (object_name : string) (st : state)
    (e : exn) :
  let tried := run_collectors (collectors self) object_name ∅
                 (_log_status self (LogBuilding object_name) st) in
  let built := _build_usage_cache_for_object self object_name st in
  tried.1.2 = Raise e →
  usage_cache built !! object_name = Some tried.1.1
  ∧ calls built = calls tried.2
  ∧ (∀ field_api_name,
       get_field_usage self object_name field_api_name built =
       (let usage_data : usage_entry :=
          default ∅ (tried.1.1 !! (object_name +:+ "." +:+ field_api_name)) in
        if bool_decide (usage_data = ∅) then Ok "" else format_usage usage_data, built))
  ∧ (∀ fields, later_calls self object_name fields built = built).
Proof.
  intros tried built Hraise.
  assert (Hc : usage_cache built !! object_name = Some tried.1.1)
    by apply build_cache_lookup.
  split_and!; [done| | |].
  - subst built tried. unfold _build_usage_cache_for_object.
    destruct (run_collectors _ _ _ _) as [[ud [[]|e']] st1]; simpl in *; [done|].
    apply log_status_calls.
  - intros f. by apply get_field_usage_cached.
  - intros fields. apply later_calls_cached. eauto.
Qed.

Lemma failed_build_is_cached_witness :
  let tried := run_collectors (collectors Sample.null_name) "Account" ∅
                 (_log_status Sample.null_name (LogBuilding "Account") initial_state) in
  let built := _build_usage_cache_for_object Sample.null_name "Account" initial_state in
  tried.1.2 = Raise TypeError
  ∧ usage_cache built !! "Account" = Some tried.1.1
  ∧ calls built = calls tried.2
  ∧ (∀ field_api_name,
       get_field_usage Sample.null_name "Account" field_api_name built =
       (let usage_data : usage_entry :=
          default ∅ (tried.1.1 !! ("Account" +:+ "." +:+ field_api_name)) in
        if bool_decide (usage_data = ∅) then Ok "" else format_usage usage_data, built))
  ∧ (∀ fields, later_calls Sample.null_name "Account" fields built = built).
Proof.
  split; [vm_compute; reflexivity|].
  apply (failed_build_is_cached Sample.null_name "Account" initial_state TypeError).
  vm_compute; reflexivity.
Defined.

(** The partial index of that build: the validation rule had been merged
    when the merge of the Apex classes raised. *)
Example failed_build_partial_index :
  let built := _build_usage_cache_for_object Sample.null_name "Account" initial_state in
  stored (cached_index built "Account") "Account.Id" "Validation Rules" = Some [Some "R1"]
  ∧ (get_field_usage Sample.null_name "Account" "Id" built).1
    = Ok ("Validation Rules" +:+ Text.newline +:+ "- R1")
  ∧ calls built =
    [ Restful (tooling_url (validation_soql "Account"));
      Restful (tooling_url apex_soql); Describe "Account" ].
Proof. vm_compute. done. Qed.

(** ** Lookups in the index after a merge *)

Lemma stored_insert ud k entry k' c :
  stored (<[k := entry]> ud) k' c = if decide (k' = k) then entry !! c else stored ud k' c.
Proof.
  unfold stored. destruct (decide (k' = k)) as [->|Hne].
  - by rewrite lookup_insert_eq.
  - by rewrite lookup_insert_ne.
Qed.

(** One pass of the loop of [_merge_usage_data]: the list under
    [(field_key, category)] exists afterwards and has the sorted items
    appended (nothing when sorting raised); every other list is as before. *)
Lemma merge_field_stored cat fk items ud k c :
  stored (merge_field cat fk items ud).1 k c =
  if decide (k = fk ∧ c = cat)
  then Some (default [] (stored ud fk cat)
             ++ match py_sorted items with Ok l => l | Raise _ => [] end)
  else stored ud k c.
Proof.
  unfold merge_field.
  set (ud1 := match ud !! fk with Some _ => ud | None => <[fk:=∅]> ud end).
  set (entry := default ∅ (ud1 !! fk)).
  set (entry1 := match entry !! cat with Some _ => entry | None => <[cat:=[]]> entry end).
  assert (H1 : ∀ k' c', stored ud1 k' c' = stored ud k' c').
  { intros k' c'. subst ud1. destruct (ud !! fk) eqn:Hfk; [done|].
    rewrite stored_insert. case_decide; [|done]. subst. unfold stored. by rewrite Hfk. }
  assert (He : ∀ c', entry !! c' = stored ud fk c').
  { intros c'. rewrite <- H1. unfold stored, entry.
    subst ud1. destruct (ud !! fk) eqn:Hfk; [by rewrite Hfk|].
    by rewrite lookup_insert_eq. }
  assert (He1 : entry1 !! cat = Some (default [] (stored ud fk cat))
                ∧ ∀ c', c' ≠ cat → entry1 !! c' = stored ud fk c').
  { subst entry1. destruct (entry !! cat) as [l|] eqn:Hcat.
    - rewrite <- He, Hcat. split; [done|]. intros c' _. apply He.
    - rewrite <- He, Hcat. split; [by rewrite lookup_insert_eq|].
      intros c' Hc'. by rewrite lookup_insert_ne, He. }
  destruct He1 as [He1 He1'].
  destruct (py_sorted items) as [sorted_items|e]; cbn [fst];
    rewrite !stored_insert, H1.
  - destruct (decide (k = fk)) as [->|Hk].
    + destruct (decide (c = cat)) as [->|Hc].
      * rewrite decide_True by done. rewrite lookup_insert_eq. by rewrite He1.
      * rewrite decide_False by (by intros [? ?]). rewrite lookup_insert_ne by done. by apply He1'.
    + by rewrite decide_False by (by intros [? ?]).
  - destruct (decide (k = fk)) as [->|Hk].
    + destruct (decide (c = cat)) as [->|Hc].
      * rewrite decide_True by done. by rewrite He1, app_nil_r.
      * rewrite decide_False by (by intros [? ?]). by apply He1'.
    + by rewrite decide_False by (by intros [? ?]).
Qed.

Lemma merge_stored_other fu cat ud k c :
  c ≠ cat → stored (_merge_usage_data fu cat ud).1 k c = stored ud k c.
Proof.
  intros Hc. unfold _merge_usage_data.
  apply (for_each_invariant (λ ud', stored ud' k c = stored ud k c)); [done|].
  intros [fk items] ud' _ IH. simpl. rewrite merge_field_stored.
  by rewrite decide_False by (by intros [? ?]).
Qed.

Lemma merge_nothing cat ud : _merge_usage_data [] cat ud = (ud, Ok tt).
Proof. done. Qed.

(** ** Page layouts contribute nothing (C8) *)

Lemma page_layout_scan_keeps response fu : (page_layout_scan response fu).1 = fu.
Proof.
  unfold page_layout_scan, bbind, blift.
  destruct (py_get response "records" (VList [])) as [records|]; [|done].
  destruct (py_iter records) as [layouts|]; [|done].
  apply (for_each_invariant (λ fu', fu' = fu)); [done|].
  intros layout fu' _ ->. unfold bbind, blift, bret.
  destruct (py_get layout "Name" (VStr "")); [|done].
  by destruct (py_get layout "Id" (VStr "")).
Qed.

Lemma page_layout_usage_empty self obj st : (_get_page_layout_usage self obj st).1 = [].
Proof.
  unfold _get_page_layout_usage.
  destruct (restful self (page_layout_url obj) st) as [[response|e] st1];
    rewrite finish_result; [|done].
  apply page_layout_scan_keeps.
Qed.

(** A category stays out of the index when each collector merged under it
    returns the empty mapping. *)
Lemma run_collectors_without c steps obj ud st :
  Forall (λ step, step.1 ≠ c ∨ ∀ st', (step.2 obj st').1 = []) steps →
  (∀ k, stored ud k c = None) →
  ∀ k, stored (run_collectors steps obj ud st).1.1 k c = None.
Proof.
  intros Hsteps. revert ud st.
  induction Hsteps as [|[cat collect] steps Hstep _ IH]; intros ud st Hud k; [by simpl|].
  simpl in *. destruct (collect obj st) as [fu st1] eqn:Hcollect.
  assert (Hmerged : ∀ k, stored (_merge_usage_data fu cat ud).1 k c = None).
  { intros k'. destruct Hstep as [Hne|Hempty].
    - by rewrite merge_stored_other.
    - specialize (Hempty st). rewrite Hcollect in Hempty. simpl in Hempty. by subst fu. }
  destruct (_merge_usage_data fu cat ud) as [ud1 [[]|e]]; simpl in *; [|done].
  by apply IH.
Qed.

(** C8.  Whatever the remote service answers, the page layout collector
    returns the empty mapping, and no entry of an index built by
    [_build_usage_cache_for_object] has a Page Layouts category. *)
Theorem page_layouts_contribute_nothing (self : tracker) (object_name : string)
    (st : state) :
  (_get_page_layout_usage self object_name st).1 = []
  ∧ ∀ field_key,
      stored (cached_index (_build_usage_cache_for_object self object_name st) object_name)
             field_key "Page Layouts" = None.
Proof.
  split; [apply page_layout_usage_empty|].
  intros k. unfold cached_index. rewrite build_cache_lookup. cbn [default].
  apply run_collectors_without; [|done].
  unfold collectors.
  repeat (apply Forall_cons; split; [by left|]).
  apply Forall_cons. split; [|by apply Forall_nil].
  right. intros st'. apply page_layout_usage_empty.
Qed.

(** ** The requests the collectors send (C9) *)

Lemma chars_app s t : Text.chars (s +:+ t) = Text.chars s ++ Text.chars t.
Proof. induction s as [|c s IH]; simpl; [done|]. by rewrite <- IH. Qed.

Lemma quote_char_is_quoted c : is_quoted (quote_char c) = true.
Proof. by destruct c as [[] [] [] [] [] [] [] []]. Qed.

(** The output of [quote] has nothing left to encode. *)
Lemma quote_is_quoted s : is_quoted (quote s) = true.
Proof.
  unfold is_quoted. induction s as [|c s IH]; simpl; [done|].
  pose proof (quote_char_is_quoted c) as Hc. unfold is_quoted in Hc.
  by rewrite chars_app, forallb_app, IH, Hc.
Qed.

Lemma quote_app s t : quote (s +:+ t) = quote s +:+ quote t.
Proof.
  induction s as [|c s IH]; simpl; [done|].
  change (String.append (String c s) t) with (String c (s +:+ t)). simpl.
  rewrite IH. unfold String.app.
  generalize (quote_char c). intros q. induction q as [|d q IHq]; simpl; [done|].
  by rewrite IHq.
Qed.

Section Requests.

Variable self : tracker.

Lemma finish_calls what out st : calls (finish self what out st).2 = calls st.
Proof. destruct out as [fu [[]|e]]; simpl; [done|]. apply log_status_calls. Qed.

Lemma tooling_query_calls soql st :
  calls (_tooling_query self soql st).2 = calls st ++ [Restful (tooling_url soql)].
Proof.
  unfold _tooling_query, restful.
  destruct (sf_restful self (calls st) (tooling_url soql)); simpl; [done|].
  by rewrite log_status_calls.
Qed.

Lemma validation_calls obj st :
  calls (_get_validation_rule_usage self obj st).2
  = calls st ++ [Restful (tooling_url (validation_soql obj))].
Proof.
  unfold _get_validation_rule_usage.
  destruct (_tooling_query self (validation_soql obj) st) as [result st1] eqn:Hq.
  rewrite finish_calls. by rewrite <- (tooling_query_calls (validation_soql obj) st), Hq.
Qed.

Lemma direct_match_calls soql check column what obj st :
  calls (direct_match_usage self soql check column what obj st).2
  = calls st ++ [Restful (tooling_url soql); Describe obj].
Proof.
  unfold direct_match_usage.
  destruct (_tooling_query self soql st) as [result st1] eqn:Hq.
  assert (Hc : calls st1 = calls st ++ [Restful (tooling_url soql)]).
  { by rewrite <- (tooling_query_calls soql st), Hq. }
  unfold describe. simpl. rewrite finish_calls. simpl. rewrite Hc.
  by rewrite <- app_assoc.
Qed.

Lemma page_layout_calls obj st :
  calls (_get_page_layout_usage self obj st).2 = calls st ++ [Restful (page_layout_url obj)].
Proof. unfold _get_page_layout_usage, restful. by rewrite finish_calls. Qed.

End Requests.

(** The URL of the page layout collector is not the URL [_tooling_query]
    builds for any query text: it carries characters [quote] would have
    encoded. *)
Lemma page_layout_url_not_tooling obj soql : page_layout_url obj ≠ tooling_url soql.
Proof.
  unfold page_layout_url, tooling_url. intros Heq.
  change (String.append ?a ?b) with (a +:+ b) in Heq.
  assert (Hq : is_quoted (quote soql) = true) by apply quote_is_quoted.
  assert (Hcut : "SELECT+Id,Name,EntityDefinitionId+FROM+Layout+WHERE+EntityDefinitionId='"
                   +:+ obj +:+ "'" = quote soql).
  { unfold String.app in *. simpl in Heq. by simplify_eq. }
  rewrite <- Hcut in Hq. unfold String.app in Hq. simpl in Hq.
  vm_compute in Hq. discriminate.
Qed.

(** C9.  The five collectors that go through [_tooling_query] send their
    query text through [quote], whose output has nothing left to encode.
    The page layout collector does not: for the object [Account] it sends
    the text below, with the quote, comma and equals characters and the
    interpolated object name as they are, which is the encoding of no
    query text. *)
Theorem page_layout_query_not_encoded (self : tracker) (st : state) :
  calls (_get_page_layout_usage self "Account" st).2
  = calls st ++
    [Restful "tooling/query/?q=SELECT+Id,Name,EntityDefinitionId+FROM+Layout+WHERE+EntityDefinitionId='Account'"]
  ∧ (∀ soql, page_layout_url "Account" ≠ tooling_url soql)
  ∧ is_quoted "SELECT+Id,Name,EntityDefinitionId+FROM+Layout+WHERE+EntityDefinitionId='Account'"
    = false
  ∧ (∀ soql st', calls (_tooling_query self soql st').2
                 = calls st' ++ [Restful ("tooling/query/?q=" +:+ quote soql)]
                 ∧ is_quoted (quote soql) = true)
  ∧ quote (validation_soql "Account")
    = "SELECT%20ValidationName%2C%20Metadata%20FROM%20ValidationRule%20WHERE%20EntityDefinition.QualifiedApiName%20%3D%20%27Account%27".
Proof.
  split_and!.
  - by rewrite page_layout_calls.
  - intros soql. apply page_layout_url_not_tooling.
  - by vm_compute.
  - intros soql st'. split; [apply tooling_query_calls | apply quote_is_quoted].
  - by vm_compute.
Qed.

(** ** The report (C4) *)

Section Ascending.

Import ReportSpec.

Lemma insert_ascending_perm x l : insert_ascending x l ≡ₚ x :: l.
Proof.
  induction l as [|y l IH]; simpl; [done|].
  destruct (String.leb x y); [done|]. rewrite IH. apply Permutation_swap.
Qed.

Lemma ascending_perm l : ascending l ≡ₚ l.
Proof.
  induction l as [|x l IH]; simpl; [done|].
  rewrite insert_ascending_perm. by f_equiv.
Qed.

Lemma insert_ascending_sorted x l :
  Sorted String.le l → Sorted String.le (insert_ascending x l).
Proof.
  induction 1 as [|y l Hl IH Hhd]; simpl; [by repeat constructor|].
  destruct (String.leb x y) eqn:Hxy.
  - constructor; [by constructor|]. constructor. unfold String.le. by rewrite Hxy.
  - constructor; [done|].
    assert (Hyx : String.le y x).
    { destruct (total String.le x y) as [H|H]; [|done].
      unfold String.le in H. by rewrite Hxy in H. }
    destruct Hhd as [|z l' Hyz]; simpl; [by constructor|].
    destruct (String.leb x z); by constructor.
Qed.

Lemma ascending_sorted l : Sorted String.le (ascending l).
Proof.
  induction l as [|x l IH]; simpl; [constructor|]. by apply insert_ascending_sorted.
Qed.

(** The sort of the source and the insertion sort agree: a list has one
    ascending arrangement. *)
Lemma merge_sort_ascending l : merge_sort String.le l = ascending l.
Proof.
  apply (Sorted_unique String.le).
  - apply Sorted_merge_sort, _.
  - apply ascending_sorted.
  - by rewrite merge_sort_Permutation, ascending_perm.
Qed.

End Ascending.

Lemma the_strings_Some (l : list string) : the_strings (Some <$> l) = Some l.
Proof. unfold the_strings. by apply mapM_fmap_Some. Qed.

(** [sorted] on strings does not raise. *)
Lemma py_sorted_strings (l : list string) :
  py_sorted (Some <$> l) = Ok (Some <$> ReportSpec.ascending l).
Proof.
  destruct l as [|x [|y l]]; [done|done|].
  unfold py_sorted.
  change (Some <$> x :: y :: l) with (Some x :: Some y :: (Some <$> l)).
  cbv match.
  change (Some x :: Some y :: (Some <$> l)) with (Some <$> x :: y :: l).
  rewrite the_strings_Some. by rewrite merge_sort_ascending.
Qed.

Lemma rmap_fmap_ok {A B C} (f : B → result C) (g : A → B) (h : A → C) (l : list A) :
  (∀ x, f (g x) = Ok (h x)) → rmap f (g <$> l) = Ok (h <$> l).
Proof.
  intros Hf. induction l as [|x l IH]; [done|].
  rewrite !fmap_cons. cbn [rmap]. rewrite Hf. cbn [rbind]. rewrite IH. done.
Qed.

Lemma section_lines_spec entry c :
  section_lines (entry_of entry) (ReportSpec.category_name c)
  = Ok (ReportSpec.section entry c).
Proof.
  unfold section_lines, ReportSpec.section, entry_of. rewrite lookup_fmap.
  destruct (entry !! ReportSpec.category_name c) as [[|n names]|]; [done| |done].
  cbn [fmap option_fmap option_map].
  change (list_fmap string name Some (n :: names))
    with (Some n :: (Some <$> names)). cbv beta iota.
  change (Some n :: (Some <$> names)) with (Some <$> n :: names).
  rewrite py_sorted_strings. cbn [rbind]. do 3 f_equal.
  rewrite <- list_fmap_compose. by apply list_fmap_ext.
Qed.

Lemma lstrip_rstrip_word c s :
  Text.is_space c = false → Text.strip (String c s) = Text.rstrip (String c s).
Proof.
  intros Hc. unfold Text.strip. simpl.
  destruct (Text.rstrip s); simpl; rewrite ?Hc; simpl; by rewrite ?Hc.
Qed.

(** The lines of a report are none, or start with a category name. *)
Lemma report_head entry cs :
  concat (ReportSpec.section entry <$> cs) = []
  ∨ ∃ c rest, concat (ReportSpec.section entry <$> cs) = ReportSpec.category_name c :: rest.
Proof.
  induction cs as [|c cs IH]; [by left|].
  rewrite fmap_cons. cbn [concat]. unfold ReportSpec.section at 1 3.
  destruct (entry !! ReportSpec.category_name c) as [[|n names]|]; [done| |done].
  right. eexists _, _. by rewrite <- app_comm_cons.
Qed.

(** [strip] has nothing to remove at the front of a report. *)
Lemma strip_report entry cs :
  let text := Text.join Text.newline (concat (ReportSpec.section entry <$> cs)) in
  Text.strip text = Text.rstrip text.
Proof.
  destruct (report_head entry cs) as [->|(c & rest & ->)]; [done|].
  destruct rest as [|line rest]; destruct c; by apply lstrip_rstrip_word.
Qed.

(** C4.  On an entry of string names the formatter returns the report of
    the specification: the six categories in the order Page Layouts,
    Validation Rules, Apex Classes, Apex Triggers, Visualforce Pages,
    Visualforce Components; for each one present and non-empty its name, a
    bulleted line per entity name in ascending order, and a blank line;
    trailing whitespace trimmed.  The ascending order is a sorted
    rearrangement of the names.  For Apex Classes [ClassB, ClassA] and Page
    Layouts [Layout1] the Page Layouts section comes first and ClassA
    comes before ClassB. *)
Theorem format_usage_report (entry : gmap string (list string)) :
  format_usage (entry_of entry) = Ok (ReportSpec.format entry)
  ∧ (∀ names, Sorted String.le (ReportSpec.ascending names)
              ∧ ReportSpec.ascending names ≡ₚ names)
  ∧ format_usage (entry_of Sample_entry)
    = Ok ("Page Layouts" +:+ Text.newline +:+ "- Layout1" +:+ Text.newline
          +:+ Text.newline
          +:+ "Apex Classes" +:+ Text.newline +:+ "- ClassA" +:+ Text.newline
          +:+ "- ClassB").
Proof.
  split_and!.
  - unfold format_usage, ReportSpec.format.
    change section_order with (ReportSpec.category_name <$> ReportSpec.display_order).
    rewrite (rmap_fmap_ok _ _ (ReportSpec.section entry)) by apply section_lines_spec.
    simpl. f_equal. apply (strip_report entry ReportSpec.display_order).
  - intros names. split; [apply ascending_sorted | apply ascending_perm].
  - by vm_compute.
Qed.

(** ** The extractor (C5) *)

Section Extractor.

Import Regex TokenSpec.

Lemma letter_is_word c : Text.is_letter c = true → Text.is_word c = true.
Proof. unfold Text.is_word. by intros ->. Qed.

(** The text starts with its leading run. *)
Lemma split_runs_prefix s : ∃ rest, s = (split_runs s).1 +:+ rest.
Proof.
  induction s as [|c s [rest IH]]; simpl; [by exists ""|].
  destruct (split_runs s) as [w runs]. simpl in *.
  destruct (Text.is_word c); simpl.
  - exists rest. unfold String.app in *. simpl. by rewrite <- IH.
  - by exists (String c s).
Qed.

(** The leading run is empty exactly when the text does not start with a
    word character. *)
Lemma split_runs_first s :
  is_word_opt (first_char s) = negb (String.eqb (split_runs s).1 "").
Proof.
  destruct s as [|c s]; simpl; [done|].
  destruct (split_runs s) as [w runs]. by destruct (Text.is_word c).
Qed.

(** [__c\b] matches at the head of a text exactly when the run of word
    characters there is [__c]. *)
Lemma suffix_here_run s :
  suffix_here s = if String.eqb (split_runs s).1 "__c" then Some "__c" else None.
Proof.
  destruct (String.eqb_spec (split_runs s).1 "__c") as [Hrun|Hrun].
  - destruct (split_runs_prefix s) as [rest Hs]. rewrite Hrun in Hs.
    unfold String.app in Hs. simpl in Hs. subst s. simpl in Hrun. simpl.
    unfold word_boundary. rewrite split_runs_first.
    destruct (split_runs rest) as [w runs]. simpl in *.
    by simplify_eq.
  - destruct s as [|c1 [|c2 [|c3 rest]]]; try done. simpl.
    destruct (Ascii.eqb_spec c1 "_") as [->|]; [|done].
    destruct (Ascii.eqb_spec c2 "_") as [->|]; [|done].
    destruct (Ascii.eqb_spec c3 "c") as [->|]; [|done].
    simpl. unfold word_boundary. rewrite split_runs_first. simpl in *.
    destruct (split_runs rest) as [w runs]. simpl in *.
    by destruct w.
Qed.

(** [[A-Za-z0-9_]*__c\b] matches at the head of a text exactly when the
    run of word characters there ends in [__c], and then it takes the
    whole run. *)
Lemma star_then_suffix_run s :
  star_then_suffix s
  = if ends_with "__c" (split_runs s).1 then Some (split_runs s).1 else None.
Proof.
  induction s as [|c s IH]; [done|].
  cbn [star_then_suffix]. rewrite suffix_here_run. rewrite IH. clear IH.
  cbn [split_runs]. destruct (split_runs s) as [w runs]. cbn [fst].
  destruct (Text.is_word c) eqn:Hc; cbn [fst].
  - cbn [ends_with].
    destruct (ends_with "__c" w); [by rewrite orb_true_r|].
    rewrite orb_false_r. by destruct (String.eqb_spec (String c w) "__c") as [->|].
  - done.
Qed.

(** The scan in its three situations: at the start of a run, inside a
    token it has just matched, and inside a run that gave no match. *)
Lemma scan_runs s :
  (∀ before, is_word_opt before = false →
     scan 0 before s
     = List.filter is_custom_field (cons_run (split_runs s).1 (split_runs s).2))
  ∧ (∀ before, scan (String.length (split_runs s).1) before s
               = List.filter is_custom_field (split_runs s).2)
  ∧ (∀ before, is_word_opt before = true →
       scan 0 before s = List.filter is_custom_field (split_runs s).2).
Proof.
  induction s as [|c s (IHstart & IHskip & IHinside)]; [done|].
  cbn [scan split_runs match_here].
  rewrite star_then_suffix_run.
  destruct (split_runs s) as [w runs]. cbn [fst snd] in *.
  destruct (Text.is_word c) eqn:Hc; cbn [fst snd String.length cons_run].
  - split_and!.
    + intros before Hb. unfold word_boundary. rewrite Hb. cbn [is_word_opt]. rewrite Hc.
      cbn [xorb andb]. cbn [List.filter is_custom_field].
      destruct (Text.is_letter c); cbn [andb].
      * destruct (ends_with "__c" w); cbn [fmap option_fmap option_map].
        -- cbn [String.length]. rewrite Nat.sub_1_r. cbn [Nat.pred].
           by rewrite IHskip.
        -- by apply IHinside.
      * by apply IHinside.
    + intros before. apply IHskip.
    + intros before Hb. unfold word_boundary. rewrite Hb. cbn [is_word_opt]. rewrite Hc.
      cbn [xorb andb]. by apply IHinside.
  - assert (Hletter : Text.is_letter c = false).
    { destruct (Text.is_letter c) eqn:Hl; [|done]. by rewrite (letter_is_word _ Hl) in Hc. }
    split_and!; intros before; intros; rewrite Hletter, andb_false_r; by apply IHstart.
Qed.

(** [findall] returns the maximal runs of word characters that start with
    a letter and end in [__c], in the order of the text. *)
Lemma findall_tokens s : findall s = tokens s.
Proof. unfold findall, tokens, word_runs. by apply scan_runs. Qed.



End Extractor.



(** ** Mappings from field keys to sets of entity names *)

Lemma assoc_app_None {A} k (d d' : list (string * A)) :
  assoc k d = None → assoc k (d ++ d') = assoc k d'.
Proof.
  induction d as [|[k' v] d IH]; simpl; [done|].
  destruct (String.eqb k k'); [done|]. apply IH.
Qed.

Lemma assoc_app_Some {A} k (d d' : list (string * A)) v :
  assoc k d = Some v → assoc k (d ++ d') = Some v.
Proof.
  induction d as [|[k' v'] d IH]; simpl; [done|].
  destruct (String.eqb k k'); [done|]. apply IH.
Qed.

Lemma assoc_None_keys {A} k (d : list (string * A)) : assoc k d = None ↔ k ∉ d.*1.
Proof.
  induction d as [|[k' v] d IH]; simpl.
  - split; [intros _; apply not_elem_of_nil|done].
  - rewrite not_elem_of_cons. destruct (String.eqb_spec k k') as [->|Hne].
    + split; [done|]. by intros [? _].
    + rewrite IH. split; [by intros ?; split|by intros [_ ?]].
Qed.

Lemma fu_get_setdefault k k' fu :
  fu_get k' (fu_setdefault k fu)
  = if decide (k' = k) then Some (default [] (fu_get k fu)) else fu_get k' fu.
Proof.
  unfold fu_setdefault, fu_get.
  destruct (assoc k fu) as [items|] eqn:Hk.
  - case_decide as Hkk; [by subst; rewrite Hk|done].
  - case_decide as Hkk.
    + subst. rewrite assoc_app_None by done. simpl. by rewrite String.eqb_refl.
    + destruct (assoc k' fu) as [items'|] eqn:Hk'.
      * by apply assoc_app_Some.
      * rewrite assoc_app_None by done. simpl.
        by destruct (String.eqb_spec k' k).
Qed.

Lemma fu_get_alter f k k' fu :
  fu_get k' (fu_alter f k fu) = if decide (k' = k) then f <$> fu_get k fu else fu_get k' fu.
Proof.
  unfold fu_get. induction fu as [|[k0 s] fu IH]; simpl.
  - by case_decide.
  - destruct (String.eqb_spec k k0) as [->|Hne]; simpl.
    + destruct (String.eqb_spec k' k0) as [->|Hne'].
      * by rewrite decide_True.
      * by rewrite decide_False.
    + destruct (String.eqb_spec k' k0) as [->|Hne'].
      * by rewrite decide_False.
      * apply IH.
Qed.

Lemma fu_keys_alter f k fu : (fu_alter f k fu).*1 = fu.*1.
Proof.
  induction fu as [|[k0 s] fu IH]; [done|]. cbn [fu_alter].
  destruct (String.eqb k k0); rewrite !fmap_cons; [done|]. by rewrite IH.
Qed.

Lemma elem_of_set_add x y s : x ∈ set_add y s ↔ x ∈ s ∨ x = y.
Proof.
  unfold set_add. case_bool_decide as Hy.
  - split; [by left|]. by intros [?| ->].
  - rewrite elem_of_app, list_elem_of_singleton. done.
Qed.

Lemma NoDup_set_add y s : NoDup s → NoDup (set_add y s).
Proof.
  intros Hs. unfold set_add. case_bool_decide as Hy; [done|].
  apply NoDup_app. split_and!; [done| |apply NoDup_singleton].
  intros x Hx ->%list_elem_of_singleton. done.
Qed.

(** Recording a hashable entity adds it under its key and changes nothing
    else; an unhashable one raises and leaves the key present. *)
Lemma record_usage_ok k e n fu :
  py_hash e = Ok n →
  record_usage k e fu = (fu_alter (set_add n) k (fu_setdefault k fu), Ok tt).
Proof. intros He. unfold record_usage. by rewrite He. Qed.

Lemma fu_get_record k n k' fu :
  fu_get k' (fu_alter (set_add n) k (fu_setdefault k fu))
  = if decide (k' = k) then Some (set_add n (default [] (fu_get k fu))) else fu_get k' fu.
Proof.
  rewrite fu_get_alter, !fu_get_setdefault.
  case_decide; [|done]. by rewrite decide_True.
Qed.

Lemma recorded_record_usage k e n fu k' x :
  py_hash e = Ok n →
  recorded (record_usage k e fu).1 k' x ↔ recorded fu k' x ∨ (k' = k ∧ x = n).
Proof.
  intros He. rewrite (record_usage_ok _ _ _ _ He). cbn [fst]. unfold recorded.
  rewrite fu_get_record.
  destruct (decide (k' = k)) as [->|Hne].
  - split.
    + intros (items & [= <-] & Hx). apply elem_of_set_add in Hx as [Hx|Hx]; [|by right].
      left. destruct (fu_get k fu) as [items|]; [eauto|]. by apply elem_of_nil in Hx.
    + intros [(items & Hk & Hx)|[_ ->]]; eexists; (split; [done|]);
        apply elem_of_set_add; [left|by right]. by rewrite Hk.
  - split; [intros H; by left|]. by intros [H|[? _]].
Qed.

Lemma fu_wf_setdefault k fu : fu_wf fu → fu_wf (fu_setdefault k fu).
Proof.
  intros [Hkeys Hsets]. unfold fu_setdefault.
  destruct (fu_get k fu) eqn:Hk; [done|]. split.
  - rewrite fmap_app. apply NoDup_app. split_and!; [done| |apply NoDup_singleton].
    intros k' Hk' ->%list_elem_of_singleton. by apply assoc_None_keys in Hk.
  - apply Forall_app. split; [done|]. apply Forall_singleton, NoDup_nil_2.
Qed.

Lemma Forall_fu_alter (P : string * list name → Prop) f k fu :
  (∀ s, P (k, s) → P (k, f s)) → Forall P fu → Forall P (fu_alter f k fu).
Proof.
  intros Hf. induction 1 as [|[k0 s] fu Hx Hfu IH]; cbn [fu_alter]; [done|].
  destruct (String.eqb_spec k k0) as [->|Hne]; constructor; auto.
Qed.

Lemma fu_wf_alter k n fu : fu_wf fu → fu_wf (fu_alter (set_add n) k fu).
Proof.
  intros [Hkeys Hsets]. split; [by rewrite fu_keys_alter|].
  apply Forall_fu_alter; [|done]. intros s. apply NoDup_set_add.
Qed.

Lemma fu_wf_record_usage k e fu : fu_wf fu → fu_wf (record_usage k e fu).1.
Proof.
  intros Hwf. unfold record_usage.
  destruct (py_hash e); cbn [fst]; auto using fu_wf_alter, fu_wf_setdefault.
Qed.

Lemma fu_alter_fresh f k s fu :
  fu_get k fu = None → fu_alter f k (fu ++ [(k, s)]) = fu ++ [(k, f s)].
Proof.
  unfold fu_get. induction fu as [|[k0 s0] fu IH]; cbn [assoc app fu_alter].
  - by rewrite String.eqb_refl.
  - destruct (String.eqb k k0); [done|]. intros Hk. by rewrite IH.
Qed.

Lemma fu_full_record_usage k s fu : fu_full fu → fu_full (record_usage k (VStr s) fu).1.
Proof.
  intros Hfull. cbn. unfold fu_setdefault.
  destruct (fu_get k fu) eqn:Hk.
  - apply Forall_fu_alter; [|done].
    intros items [_ Hitems]. cbn [snd] in *. unfold set_add.
    case_bool_decide as Hin.
    + split; [|done]. intros ->. by apply elem_of_nil in Hin.
    + split; [by destruct items|]. apply Forall_app. split; [done|].
      apply Forall_singleton. by eexists.
  - rewrite fu_alter_fresh by done. apply Forall_app. split; [done|].
    apply Forall_singleton. cbn. split; [done|]. apply Forall_singleton. by eexists.
Qed.

(** *** What the scans keep

    The scans change the mapping through [record_usage] only, so a property
    of the mapping that [record_usage] keeps for the entity names of the
    response is kept by a scan, however it ends. *)

Section Preserved.

Variable P : field_usage → Prop.
Variable Q : value → Prop.
Hypothesis record_keeps : ∀ k e fu, Q e → P fu → P (record_usage k e fu).1.

Lemma match_fields_keeps obj entity text names fu :
  Q entity → P fu → P (match_fields obj entity text names fu).1.
Proof.
  intros He Hfu. unfold match_fields.
  apply for_each_invariant; [done|].
  intros field_name fu' _ Hfu'. unfold bbind, blift.
  destruct (py_in field_name text) as [[]|]; cbn [fst]; auto.
Qed.

Lemma direct_match_step_keeps check column obj names record fu :
  (∀ e, py_get record "Name" (VStr "") = Ok e → Q e) →
  P fu → P (direct_match_step check column obj names record fu).1.
Proof.
  intros He Hfu. unfold direct_match_step, bbind, blift, bret.
  destruct (py_get record "Name" (VStr "")) as [entity|]; [|done].
  destruct (py_get record column (VStr "")) as [text|]; [|done].
  destruct (negb (py_truthy text)); [done|].
  destruct (if check then py_in (VStr obj) text else Ok true) as [[]|]; cbn [negb fst]; [|done..].
  apply match_fields_keeps; auto.
Qed.

Lemma entity_names_elem column response records recs rec e :
  py_get response "records" (VList []) = Ok records →
  py_iter records = Ok recs →
  rec ∈ recs →
  py_get rec column (VStr "") = Ok e →
  e ∈ entity_names column response.
Proof.
  intros Hrecords Hrecs Hrec He. unfold entity_names. rewrite Hrecords, Hrecs.
  apply list_elem_of_omap. exists rec. by rewrite He.
Qed.

Lemma direct_match_scan_keeps check column obj result obj_describe fu :
  Forall Q (entity_names "Name" result) →
  P fu → P (direct_match_scan check column obj result obj_describe fu).1.
Proof.
  intros Hnames Hfu. unfold direct_match_scan, bbind, blift.
  destruct (py_getitem obj_describe "fields") as [fields|]; [|done].
  destruct (py_iter fields) as [fs|]; [|done].
  destruct (rmap _ fs) as [field_names|]; [|done].
  destruct (py_get result "records" (VList [])) as [records|] eqn:Hrecords; [|done].
  destruct (py_iter records) as [recs|] eqn:Hrecs; [|done].
  apply for_each_invariant; [done|].
  intros rec fu' Hrec Hfu'. apply direct_match_step_keeps; [|done].
  intros e He. rewrite Forall_forall in Hnames. apply Hnames.
  by eapply entity_names_elem.
Qed.

Lemma validation_rule_step_keeps obj rule fu :
  (∀ e, py_get rule "ValidationName" (VStr "") = Ok e → Q e) →
  P fu → P (validation_rule_step obj rule fu).1.
Proof.
  intros He Hfu. unfold validation_rule_step, bbind, blift, bret.
  destruct (py_get rule "ValidationName" (VStr "")) as [rule_name|]; [|done].
  destruct (py_get rule "Metadata" (VDict [])) as [metadata|]; [|done].
  destruct (negb (py_truthy metadata)); [done|].
  destruct (py_get metadata "errorDisplayField" VNone) as [error_field|]; [|done].
  set (first := (if py_truthy error_field
                 then record_usage (field_key_of obj error_field) rule_name
                 else λ s, (s, Ok tt)) fu).
  assert (Hfirst : P first.1).
  { subst first. destruct (py_truthy error_field); cbn [fst]; auto. }
  destruct first as [fu1 [[]|]]; cbn [fst] in *; [|done].
  destruct (py_get metadata "errorConditionFormula" (VStr "")) as [formula|]; [|done].
  destruct (py_truthy formula); [|done].
  destruct (_extract_fields_from_text formula obj) as [fields|]; [|done].
  apply for_each_invariant; [done|]. intros field fu' _ Hfu'. auto.
Qed.

Lemma validation_scan_keeps obj result fu :
  Forall Q (entity_names "ValidationName" result) →
  P fu → P (validation_scan obj result fu).1.
Proof.
  intros Hnames Hfu. unfold validation_scan, bbind, blift.
  destruct (py_get result "records" (VList [])) as [records|] eqn:Hrecords; [|done].
  destruct (py_iter records) as [recs|] eqn:Hrecs; [|done].
  apply for_each_invariant; [done|].
  intros rec fu' Hrec Hfu'. apply validation_rule_step_keeps; [|done].
  intros e He. rewrite Forall_forall in Hnames. apply Hnames.
  by eapply entity_names_elem.
Qed.

End Preserved.

(** *** The six collectors *)

Section CollectorsKeep.

Variable self : tracker.

Lemma tooling_query_names column soql st :
  names_are_strings (sf_restful self (calls st) (tooling_url soql)) = true →
  (column = "Name" ∨ column = "ValidationName") →
  Forall (λ e, is_str e = true) (entity_names column (_tooling_query self soql st).1).
Proof.
  intros Hnames Hcol. unfold _tooling_query, restful.
  destruct (sf_restful self (calls st) (tooling_url soql)) as [response|e]; cbn [fst].
  - cbn [names_are_strings] in Hnames. apply andb_true_iff in Hnames as [H1 H2].
    apply Forall_forall. intros e He. rewrite forallb_forall in H1, H2.
    rewrite list_elem_of_In in He. destruct Hcol as [-> | ->]; auto.
  - by apply Forall_nil.
Qed.

(** Every collector returns a mapping with no key and no element twice. *)
Lemma collectors_wf step obj st : step ∈ collectors self → fu_wf (step.2 obj st).1.
Proof.
  assert (Hnil : fu_wf []) by (split; [apply NoDup_nil_2|apply Forall_nil_2]).
  assert (Hdirect : ∀ soql check column what,
             fu_wf (direct_match_usage self soql check column what obj st).1).
  { intros. unfold direct_match_usage.
    destruct (_tooling_query self soql st) as [result st1].
    destruct (describe self obj st1) as [[obj_describe|e] st2]; rewrite finish_result; [|done].
    apply (direct_match_scan_keeps fu_wf (λ _, True)); auto using fu_wf_record_usage.
    apply Forall_forall. done. }
  unfold collectors. rewrite !elem_of_cons, elem_of_nil.
  intros [->|[->|[->|[->|[->|[->|[]]]]]]]; cbn [snd]; try apply Hdirect.
  - unfold _get_validation_rule_usage.
    destruct (_tooling_query self (validation_soql obj) st) as [result st1].
    rewrite finish_result.
    apply (validation_scan_keeps fu_wf (λ _, True)); auto using fu_wf_record_usage.
    apply Forall_forall. done.
  - by rewrite page_layout_usage_empty.
Qed.

(** When the entity names the service returns are strings, every set a
    collector returns is non-empty and holds strings. *)
Lemma collectors_full step obj st :
  (∀ trace url, names_are_strings (sf_restful self trace url) = true) →
  step ∈ collectors self → fu_full (step.2 obj st).1.
Proof.
  intros Hnames.
  assert (Hrec : ∀ k e fu, is_str e = true → fu_full fu → fu_full (record_usage k e fu).1).
  { intros k [] fu He; try done. apply fu_full_record_usage. }
  assert (Hdirect : ∀ soql check column what,
             fu_full (direct_match_usage self soql check column what obj st).1).
  { intros. unfold direct_match_usage.
    pose proof (tooling_query_names "Name" soql st (Hnames _ _) (or_introl eq_refl)) as Hq.
    destruct (_tooling_query self soql st) as [result st1].
    destruct (describe self obj st1) as [[obj_describe|e] st2]; rewrite finish_result;
      [|apply Forall_nil_2].
    apply (direct_match_scan_keeps fu_full (λ e, is_str e = true)); auto.
    apply Forall_nil_2. }
  unfold collectors. rewrite !elem_of_cons, elem_of_nil.
  intros [->|[->|[->|[->|[->|[->|[]]]]]]]; cbn [snd]; try apply Hdirect.
  - unfold _get_validation_rule_usage.
    pose proof (tooling_query_names "ValidationName" (validation_soql obj) st (Hnames _ _)
                  (or_intror eq_refl)) as Hq.
    destruct (_tooling_query self (validation_soql obj) st) as [result st1].
    rewrite finish_result.
    apply (validation_scan_keeps fu_full (λ e, is_str e = true)); auto.
    apply Forall_nil_2.
  - rewrite page_layout_usage_empty. apply Forall_nil_2.
Qed.

End CollectorsKeep.

(** ** Merging (C2, C6) *)

Lemma the_strings_fmap items strs : the_strings items = Some strs → items = Some <$> strs.
Proof.
  unfold the_strings. intros H%mapM_Some_1.
  induction H as [|x y l k Hxy _ IH]; [done|]. cbn in Hxy. subst x. by rewrite fmap_cons, IH.
Qed.

(** [sorted] rearranges. *)
Lemma py_sorted_perm items l : py_sorted items = Ok l → l ≡ₚ items.
Proof.
  unfold py_sorted. destruct items as [|x [|y items]]; [by intros [= <-]..|].
  destruct (the_strings (x :: y :: items)) as [strs|] eqn:Hs; [|done].
  intros [= <-]. apply the_strings_fmap in Hs. rewrite Hs.
  by rewrite merge_sort_Permutation.
Qed.


(** [sorted] succeeds on strings. *)
Lemma py_sorted_full items : Forall is_Some items → ∃ l, py_sorted items = Ok l.
Proof.
  intros Hitems. assert (∃ strs, items = Some <$> strs) as [strs ->].
  { induction Hitems as [|x items [s ->] _ [strs ->]]; [by exists []|]. by exists (s :: strs). }
  rewrite py_sorted_strings. eauto.
Qed.

Lemma merge_cons k items fu cat ud :
  _merge_usage_data ((k, items) :: fu) cat ud =
  match merge_field cat k items ud with
  | (ud1, Ok _) => _merge_usage_data fu cat ud1
  | (ud1, Raise e) => (ud1, Raise e)
  end.
Proof. unfold _merge_usage_data. by rewrite for_each_cons. Qed.

(** A merge that completes: under the merged category every key of the
    mapping has its sorted items appended, and nothing else changes. *)
Lemma merge_stored fu cat ud ud' k c :
  NoDup fu.*1 →
  _merge_usage_data fu cat ud = (ud', Ok tt) →
  stored ud' k c =
  if decide (c = cat)
  then match fu_get k fu with
       | Some items => Some (default [] (stored ud k c) ++ sorted_items items)
       | None => stored ud k c
       end
  else stored ud k c.
Proof.
  revert ud. induction fu as [|[k0 items0] fu IH]; intros ud Hkeys Hmerge.
  - cbv in Hmerge. simplify_eq. by case_decide.
  - rewrite merge_cons in Hmerge. rewrite fmap_cons in Hkeys.
    apply NoDup_cons in Hkeys as [Hk0 Hkeys].
    pose proof (merge_field_stored cat k0 items0 ud) as Hfield.
    destruct (merge_field cat k0 items0 ud) as [ud1 [[]|e]]; [|done].
    cbn [fst] in Hfield. rewrite (IH _ Hkeys Hmerge). unfold fu_get. cbn [assoc].
    case_decide as Hc; [subst c|].
    + destruct (String.eqb_spec k k0) as [->|Hne].
      * apply assoc_None_keys in Hk0. unfold fu_get. cbn [fst] in Hk0. rewrite Hk0.
        rewrite Hfield. rewrite decide_True by done. done.
      * rewrite !Hfield. rewrite decide_False by (by intros [? ?]). done.
    + rewrite Hfield. by rewrite decide_False by (by intros [? ?]).
Qed.

Lemma run_collectors_cons cat collect steps obj ud st :
  run_collectors ((cat, collect) :: steps) obj ud st =
  match _merge_usage_data (collect obj st).1 cat ud with
  | (ud1, Ok _) => run_collectors steps obj ud1 (collect obj st).2
  | (ud1, Raise e) => (ud1, Raise e, (collect obj st).2)
  end.
Proof. cbn [run_collectors]. by destruct (collect obj st). Qed.


Lemma recorded_sorted fu k n items :
  fu_get k fu = Some items →
  (n ∈ sorted_items items ∨ (∃ e, py_sorted items = Raise e ∧ n ∈ items)) ↔ recorded fu k n.
Proof.
  intros Hk. unfold recorded, sorted_items. rewrite Hk.
  destruct (py_sorted items) as [l|e] eqn:Hs.
  - apply py_sorted_perm in Hs. rewrite Hs. split.
    + intros [?|(? & ? & _)]; [eauto|done].
    + intros (? & [= <-] & ?). by left.
  - split.
    + intros [H|(? & _ & ?)]; [by apply elem_of_nil in H|eauto].
    + intros (? & [= <-] & ?). right. eauto.
Qed.



Lemma assoc_elem_of {A} k (d : list (string * A)) v : assoc k d = Some v → (k, v) ∈ d.
Proof.
  induction d as [|[k' v'] d IH]; cbn [assoc]; [done|].
  destruct (String.eqb_spec k k') as [->|Hne].
  - intros [= ->]. apply list_elem_of_here.
  - intros H. by apply list_elem_of_further, IH.
Qed.




(** ** No empty category (C6) *)

Lemma merge_field_full cat k items ud :
  items ≠ [] → Forall is_Some items → index_full ud →
  ∃ ud', merge_field cat k items ud = (ud', Ok tt) ∧ index_full ud'.
Proof.
  intros Hne Hitems Hud.
  destruct (py_sorted_full items Hitems) as [l Hl].
  pose proof (merge_field_stored cat k items ud) as Hstored.
  unfold merge_field in *. rewrite Hl in *. cbn [fst] in Hstored.
  eexists. split; [done|].
  intros k' c' items' Hk'. rewrite Hstored in Hk'.
  case_decide as Hkc.
  - injection Hk' as <-. apply py_sorted_perm in Hl.
    intros [_ ->]%app_eq_nil. apply Permutation_nil_l in Hl. done.
  - by eapply Hud.
Qed.

Lemma merge_full fu cat ud :
  fu_full fu → index_full ud →
  ∃ ud', _merge_usage_data fu cat ud = (ud', Ok tt) ∧ index_full ud'.
Proof.
  intros Hfu. revert ud. induction Hfu as [|[k items] fu [Hne Hitems] _ IH]; intros ud Hud.
  - by exists ud.
  - rewrite merge_cons.
    destruct (merge_field_full cat k items ud Hne Hitems Hud) as (ud1 & -> & Hud1).
    by apply IH.
Qed.

Lemma run_collectors_full steps obj ud st :
  (∀ step st', step ∈ steps → fu_full (step.2 obj st').1) →
  index_full ud →
  (run_collectors steps obj ud st).1.2 = Ok tt
  ∧ index_full (run_collectors steps obj ud st).1.1.
Proof.
  revert ud st. induction steps as [|[cat collect] steps IH]; intros ud st Hfull Hud; [done|].
  rewrite run_collectors_cons.
  pose proof (Hfull (cat, collect) st (list_elem_of_here _ _)) as Hfu. cbn [snd] in Hfu.
  destruct (merge_full _ cat ud Hfu Hud) as (ud1 & -> & Hud1).
  apply IH; [|done]. intros. apply Hfull. by apply list_elem_of_further.
Qed.

Lemma index_full_empty : index_full ∅.
Proof. intros k c items. unfold stored. by rewrite lookup_empty. Qed.

(** The collectors leave the cache alone. *)
Lemma collectors_cache self step obj st :
  step ∈ collectors self → usage_cache (step.2 obj st).2 = usage_cache st.
Proof.
  assert (Hdirect : ∀ soql check column what,
             usage_cache (direct_match_usage self soql check column what obj st).2
             = usage_cache st).
  { intros. unfold direct_match_usage.
    pose proof (tooling_query_cache self soql st) as Hq.
    destruct (_tooling_query self soql st) as [result st1]. unfold describe.
    by rewrite finish_cache. }
  unfold collectors. rewrite !elem_of_cons, elem_of_nil.
  intros [->|[->|[->|[->|[->|[->|[]]]]]]]; cbn [snd]; try apply Hdirect.
  - unfold _get_validation_rule_usage.
    pose proof (tooling_query_cache self (validation_soql obj) st) as Hq.
    destruct (_tooling_query self (validation_soql obj) st) as [result st1].
    by rewrite finish_cache.
  - unfold _get_page_layout_usage, restful. by rewrite finish_cache.
Qed.

Lemma run_collectors_cache steps obj ud st :
  (∀ step st', step ∈ steps → usage_cache (step.2 obj st').2 = usage_cache st') →
  usage_cache (run_collectors steps obj ud st).2 = usage_cache st.
Proof.
  revert ud st. induction steps as [|[cat collect] steps IH]; intros ud st Hsteps; [done|].
  rewrite run_collectors_cons.
  pose proof (Hsteps (cat, collect) st (list_elem_of_here _ _)) as Hc. cbn [snd] in Hc.
  destruct (_merge_usage_data _ _ _) as [ud1 [[]|e]]; cbn [snd]; [|done].
  rewrite IH; [done|]. intros. apply Hsteps. by apply list_elem_of_further.
Qed.

(** A build changes the cache at the object it is for and nowhere else. *)
Lemma build_cache_other self obj obj' st :
  obj' ≠ obj →
  usage_cache (_build_usage_cache_for_object self obj st) !! obj' = usage_cache st !! obj'.
Proof.
  intros Hne. unfold _build_usage_cache_for_object.
  pose proof (run_collectors_cache (collectors self) obj ∅
                (_log_status self (LogBuilding obj) st)
                (λ step st' H, collectors_cache self step obj st' H)) as Hc.
  rewrite log_status_cache in Hc.
  destruct (run_collectors _ _ _ _) as [[ud [[]|e]] st1]; cbn [snd] in Hc.
  - rewrite log_status_cache. cbn [set_cache usage_cache].
    by rewrite lookup_insert_ne, Hc.
  - cbn [set_cache usage_cache]. by rewrite lookup_insert_ne, log_status_cache, Hc.
Qed.

Section CacheFull.

Variable self : tracker.
Hypothesis names : ∀ trace url, names_are_strings (sf_restful self trace url) = true.

Lemma build_full obj st :
  cache_full st → cache_full (_build_usage_cache_for_object self obj st).
Proof.
  intros Hst obj' idx.
  destruct (run_collectors_full (collectors self) obj ∅
              (_log_status self (LogBuilding obj) st)) as [Hok Hidx];
    [intros; by apply (collectors_full self)|apply index_full_empty|].
  destruct (decide (obj' = obj)) as [->|Hne].
  - rewrite build_cache_lookup. by intros [= <-].
  - rewrite build_cache_other by done. apply Hst.
Qed.

Lemma get_field_usage_full obj fld st :
  cache_full st → cache_full (get_field_usage self obj fld st).2.
Proof.
  intros Hst. rewrite get_field_usage_state.
  destruct (usage_cache st !! obj); [done|]. by apply build_full.
Qed.

Lemma session_full requests st : cache_full st → cache_full (session self requests st).
Proof.
  revert st. induction requests as [|[obj fld] requests IH]; intros st Hst; [done|].
  cbn [session]. by apply IH, get_field_usage_full.
Qed.

End CacheFull.

(** With a null entity name next to a string the merge is interrupted and
    the cached entry keeps the empty list the merge had created. *)
Lemma empty_category_counterexample :
  let st := (get_field_usage Sample.null_name "Account" "Name" initial_state).2 in
  stored (cached_index st "Account") "Account.Name" "Apex Classes" = Some []
  ∧ ¬ cache_full st.
Proof.
  assert (Hstored : stored (cached_index
            (get_field_usage Sample.null_name "Account" "Name" initial_state).2 "Account")
            "Account.Name" "Apex Classes" = Some []) by (by vm_compute).
  split; [done|].
  intros Hfull. unfold cached_index in Hstored.
  destruct (usage_cache _ !! "Account") as [idx|] eqn:Hidx; [|done].
  by apply (Hfull "Account" idx Hidx "Account.Name" "Apex Classes" []).
Qed.

(** C6, amended.  When every entity name the remote service returns is a
    string, no index in the cache maps a category to an empty list, after
    any sequence of calls to [get_field_usage] on a fresh tracker. *)
Theorem cache_has_no_empty_category (self : tracker) (requests : list (string * string)) :
  (∀ trace url, names_are_strings (sf_restful self trace url) = true) →
  cache_full (session self requests initial_state).
Proof.
  intros Hnames. apply session_full; [done|].
  intros obj idx. cbn. by rewrite lookup_empty.
Qed.

Lemma cache_has_no_empty_category_witness :
  (∀ trace url, names_are_strings (sf_restful Sample.two_classes trace url) = true)
  ∧ cache_full (session Sample.two_classes [("Account", "Name"); ("Account", "Id")]
                  initial_state)
  ∧ stored (cached_index
              (session Sample.two_classes [("Account", "Name"); ("Account", "Id")]
                 initial_state) "Account") "Account.Id" "Apex Classes" = Some [Some "A"].
Proof.
  assert (H : ∀ trace url,
             names_are_strings (sf_restful Sample.two_classes trace url) = true).
  { intros trace url. cbn [Sample.two_classes sf_restful].
    destruct (String.eqb url _); [by vm_compute|].
    destruct (String.eqb url _); by vm_compute. }
  split; [done|]. split; [|by vm_compute].
  by apply (cache_has_no_empty_category Sample.two_classes).
Defined.

(** ** Failure isolation (C3) *)





(** ** Direct field-name matching (C7) *)

Lemma field_key_inj obj f f' : obj +:+ "." +:+ f = obj +:+ "." +:+ f' → f = f'.
Proof. intros H. apply (inj (String.app obj)) in H. by apply (inj (String.app ".")) in H. Qed.

(** A loop whose every pass completes and adds, to what is recorded, what
    its element contributes. *)
Lemma for_each_recorded {A} (step : A → body unit) (R : A → string → name → Prop) xs fu :
  (∀ x fu', x ∈ xs →
     (step x fu').2 = Ok tt
     ∧ ∀ k v, recorded (step x fu').1 k v ↔ recorded fu' k v ∨ R x k v) →
  (for_each step xs fu).2 = Ok tt
  ∧ ∀ k v, recorded (for_each step xs fu).1 k v
           ↔ recorded fu k v ∨ ∃ x, x ∈ xs ∧ R x k v.
Proof.
  revert fu. induction xs as [|x xs IH]; intros fu Hstep.
  - split; [done|]. intros k v. cbn. split; [by left|].
    intros [?|(x & Hx & _)]; [done|]. by apply elem_of_nil in Hx.
  - rewrite for_each_cons.
    destruct (Hstep x fu (list_elem_of_here _ _)) as [Hok Hrec].
    destruct (step x fu) as [fu1 [[]|e]]; [|done]. cbn [fst] in Hrec.
    destruct (IH fu1) as [IHok IHrec].
    { intros y fu' Hy. apply Hstep. by apply list_elem_of_further. }
    split; [done|]. intros k v. rewrite IHrec, Hrec. setoid_rewrite elem_of_cons.
    split.
    + intros [[?|?]|(y & ? & ?)]; [by left|right; eauto..].
    + intros [?|(y & [->|?] & ?)]; [by left; left|by left; right|right; eauto].
Qed.

Section DirectMatch.

Variables (check : bool) (column obj : string).
Hypothesis text_column : String.eqb column "Name" = false.

Lemma match_fields_strings n b fields fu :
  (match_fields obj (VStr n) (VStr b) (VStr <$> fields) fu).2 = Ok tt
  ∧ ∀ k x, recorded (match_fields obj (VStr n) (VStr b) (VStr <$> fields) fu).1 k x
           ↔ recorded fu k x
             ∨ ∃ f, f ∈ fields ∧ k = obj +:+ "." +:+ f ∧ x = Some n
                    ∧ Text.contains b f = true.
Proof.
  unfold match_fields.
  match goal with |- (for_each ?s _ _).2 = _ ∧ _ => set (step := s) end.
  destruct (for_each_recorded step
              (λ fv k x, ∃ f, fv = VStr f ∧ k = obj +:+ "." +:+ f ∧ x = Some n
                              ∧ Text.contains b f = true)
              (VStr <$> fields) fu) as [Hok Hrec].
  { intros fv fu' (f & -> & _)%list_elem_of_fmap. subst step. cbv beta.
    unfold bbind, blift. cbn [py_in].
    destruct (Text.contains b f) eqn:Hbf.
    - split; [done|]. intros k x.
      rewrite (recorded_record_usage _ (VStr n) (Some n)) by done.
      split.
      + intros [?|[-> ->]]; [by left|]. right. by exists f.
      + intros [?|(f' & [= <-] & -> & -> & _)]; [by left|by right].
    - split; [done|]. intros k x. cbn [bret fst]. split; [by left|].
      intros [?|(f' & [= <-] & _ & _ & ?)]; [done|congruence]. }
  split; [done|]. intros k x. rewrite Hrec. split.
  - intros [?|(fv & Hfv & f & -> & Hf)]; [by left|]. right. exists f. split; [|done].
    apply list_elem_of_fmap in Hfv as (f' & [= ->] & ?). done.
  - intros [?|(f & Hf & Hrest)]; [by left|]. right. exists (VStr f).
    split; [by apply list_elem_of_fmap_2|]. by exists f.
Qed.

Lemma entity_get_name n b :
  py_get (Sample.entity column (VStr n) (VStr b)) "Name" (VStr "") = Ok (VStr n).
Proof. done. Qed.

Lemma entity_get_text n b :
  py_get (Sample.entity column (VStr n) (VStr b)) column (VStr "") = Ok (VStr b).
Proof.
  unfold Sample.entity. cbn [py_get assoc]. rewrite text_column.
  by rewrite String.eqb_refl.
Qed.

(** What one well-formed record adds. *)
Lemma direct_match_step_strings n b fields fu :
  let out := direct_match_step check column obj (VStr <$> fields)
               (Sample.entity column (VStr n) (VStr b)) fu in
  out.2 = Ok tt
  ∧ ∀ k x, recorded out.1 k x
           ↔ recorded fu k x
             ∨ ∃ f, f ∈ fields ∧ k = obj +:+ "." +:+ f ∧ x = Some n
                    ∧ b ≠ "" ∧ (check = true → Text.contains b obj = true)
                    ∧ Text.contains b f = true.
Proof.
  cbv zeta. unfold direct_match_step, bbind, blift.
  rewrite entity_get_name, entity_get_text. cbn [py_truthy negb].
  destruct (String.eqb_spec b "") as [->|Hb]; cbn [negb bret].
  { split; [done|]. intros k x. cbn [fst]. split; [by left|]. by intros [?|(? & ? & ? & ? & ? & _)]. }
  assert (Hmentions : (if check then py_in (VStr obj) (VStr b) else Ok true)
                      = Ok (if check then Text.contains b obj else true))
    by (by destruct check).
  rewrite Hmentions.
  destruct (if check then Text.contains b obj else true) eqn:Hm; cbn [negb].
  - destruct (match_fields_strings n b fields fu) as [Hok Hrec].
    split; [done|]. intros k x. rewrite Hrec. split.
    + intros [?|(f & ? & ? & ? & ?)]; [by left|]. right. exists f. split_and!; try done.
      intros ->. done.
    + intros [?|(f & ? & ? & ? & ? & ? & ?)]; [by left|]. right. by exists f.
  - split; [done|]. intros k x. cbn [fst]. split; [by left|].
    intros [?|(f & _ & _ & _ & _ & Hc & _)]; [done|].
    destruct check; [|done]. rewrite Hc in Hm; done.
Qed.

Lemma described_field_names fields :
  rmap (λ field, py_get field "name" (VStr ""))
       ((λ f, VDict [("name", VStr f)]) <$> fields) = Ok (VStr <$> fields).
Proof. by apply rmap_fmap_ok. Qed.

(** What the scan records from a well-formed answer and field list. *)
Lemma direct_match_scan_strings ents fields :
  let out := direct_match_scan check column obj (entities_response column ents)
               (Sample.described fields) [] in
  out.2 = Ok tt
  ∧ ∀ f n, recorded out.1 (obj +:+ "." +:+ f) (Some n)
           ↔ f ∈ fields
             ∧ ∃ b, (n, b) ∈ ents ∧ b ≠ ""
                    ∧ (check = true → Text.contains b obj = true)
                    ∧ Text.contains b f = true.
Proof.
  cbv zeta. unfold direct_match_scan, bbind, blift, entities_response.
  cbn [Sample.described py_getitem assoc String.eqb Ascii.eqb Bool.eqb py_iter].
  rewrite described_field_names.
  cbn [Sample.records py_get assoc String.eqb Ascii.eqb Bool.eqb default from_option id py_iter].
  destruct (for_each_recorded
              (direct_match_step check column obj (VStr <$> fields))
              (λ rec k x, ∃ n b, rec = Sample.entity column (VStr n) (VStr b)
                 ∧ ∃ f, f ∈ fields ∧ k = obj +:+ "." +:+ f ∧ x = Some n
                        ∧ b ≠ "" ∧ (check = true → Text.contains b obj = true)
                        ∧ Text.contains b f = true)
              ((λ nb, Sample.entity column (VStr nb.1) (VStr nb.2)) <$> ents) [])
    as [Hok Hrec].
  { intros rec fu' ([n b] & -> & _)%list_elem_of_fmap. cbn [fst snd].
    destruct (direct_match_step_strings n b fields fu') as [Hok Hrec].
    split; [done|]. intros k x. rewrite Hrec. split.
    - intros [?|?]; [by left|]. right. by exists n, b.
    - intros [?|(n' & b' & Heq & ?)]; [by left|]. right.
      unfold Sample.entity in Heq. by simplify_eq. }
  split; [done|]. intros f n. rewrite Hrec. split.
  - intros [(items & Hitems & _)|(rec & Hrec' & n' & b & -> & f' & Hf' & Hk & Hx & Hhit)];
      [done|].
    apply field_key_inj in Hk as <-. injection Hx as <-. split; [done|]. exists b.
    split; [|done].
    apply list_elem_of_fmap in Hrec' as ([n'' b''] & Heq & ?).
    unfold Sample.entity in Heq. cbn [fst snd] in Heq. by simplify_eq.
  - intros (Hf & b & Hnb & Hhit). right. exists (Sample.entity column (VStr n) (VStr b)).
    split; [|exists n, b; split; [done|]].
    { apply list_elem_of_fmap. by exists (n, b). }
    by exists f.
Qed.

End DirectMatch.

Lemma direct_match_usage_strings self soql check column what obj st ents fields :
  String.eqb column "Name" = false →
  sf_restful self (calls st) (tooling_url soql) = Ok (entities_response column ents) →
  sf_describe self (calls st ++ [Restful (tooling_url soql)]) obj
  = Ok (Sample.described fields) →
  ∀ f n, recorded (direct_match_usage self soql check column what obj st).1
                  (obj +:+ "." +:+ f) (Some n)
         ↔ f ∈ fields
           ∧ ∃ b, (n, b) ∈ ents ∧ b ≠ ""
                  ∧ (check = true → Text.contains b obj = true)
                  ∧ Text.contains b f = true.
Proof.
  intros Hcol Hquery Hdescribe f n.
  unfold direct_match_usage, _tooling_query, restful, describe. rewrite Hquery.
  cbn [calls]. rewrite Hdescribe, finish_result.
  by apply direct_match_scan_strings.
Qed.

(** The trigger collector records a trigger whose text does not mention
    the object, and its query has no [LIMIT]. *)
Lemma direct_match_counterexample :
  recorded (_get_trigger_usage Sample.two_classes "Account" initial_state).1
           "Account.Name" (Some "T")
  ∧ sf_restful Sample.two_classes [] (tooling_url (trigger_soql "Account"))
    = Ok (entities_response "Body" [("T", "insert Name")])
  ∧ Text.contains "insert Name" "Account" = false
  ∧ Text.contains (trigger_soql "Account") "LIMIT" = false.
Proof.
  split_and!; [|by vm_compute..].
  exists [Some "T"]. split; [by vm_compute|]. apply list_elem_of_here.
Qed.

(** C7, amended.  Each of the four collectors sends its query through
    [_tooling_query]; the queries for Apex classes, Visualforce pages and
    Visualforce components end in [LIMIT 500], the trigger query selects
    the triggers of the object and has no limit of its own.  On an answer
    of records with string names and texts and a list of string field
    names, an entity is recorded under the key of a field exactly when the
    field is one of the object's, the text of the entity is not empty and
    contains the field name, and, for every collector but the trigger
    collector, the text contains the object name. *)
Theorem direct_match_records (self : tracker) (c : direct_collector)
    (object_name : string) (st : state)
    (entities : list (string * string)) (fields : list string) :
  sf_restful self (calls st) (tooling_url (direct_soql c object_name))
  = Ok (entities_response (direct_column c) entities) →
  sf_describe self (calls st ++ [Restful (tooling_url (direct_soql c object_name))])
    object_name = Ok (Sample.described fields) →
  calls (direct_run self c object_name st).2
  = calls st ++ [Restful (tooling_url (direct_soql c object_name)); Describe object_name]
  ∧ (c ≠ ApexTriggerCollector →
       TokenSpec.ends_with " LIMIT 500" (direct_soql c object_name) = true)
  ∧ ∀ f n, recorded (direct_run self c object_name st).1 (object_name +:+ "." +:+ f) (Some n)
           ↔ f ∈ fields
             ∧ ∃ text, (n, text) ∈ entities ∧ text ≠ ""
                       ∧ (tests_object c = true → Text.contains text object_name = true)
                       ∧ Text.contains text f = true.
Proof.
  intros Hquery Hdescribe. split_and!.
  - destruct c; apply direct_match_calls.
  - by destruct c.
  - destruct c; by apply direct_match_usage_strings.
Qed.

Lemma direct_match_records_witness :
  let self := Sample.two_classes in
  let entities := [("B", "Account a; a.Name"); ("A", "Account a; a.Name; a.Id")] in
  sf_restful self [] (tooling_url (direct_soql ApexClassCollector "Account"))
  = Ok (entities_response "Body" entities)
  ∧ sf_describe self [Restful (tooling_url (direct_soql ApexClassCollector "Account"))]
      "Account" = Ok (Sample.described ["Id"; "Name"])
  ∧ calls (_get_apex_usage self "Account" initial_state).2
    = [Restful (tooling_url apex_soql); Describe "Account"]
  ∧ (ApexClassCollector ≠ ApexTriggerCollector →
       TokenSpec.ends_with " LIMIT 500" apex_soql = true)
  ∧ ∀ f n, recorded (_get_apex_usage self "Account" initial_state).1
                    ("Account" +:+ "." +:+ f) (Some n)
           ↔ f ∈ ["Id"; "Name"]
             ∧ ∃ text, (n, text) ∈ entities ∧ text ≠ ""
                       ∧ (true = true → Text.contains text "Account" = true)
                       ∧ Text.contains text f = true.
Proof.
  split; [by vm_compute|]. split; [by vm_compute|].
  apply (direct_match_records Sample.two_classes ApexClassCollector "Account" initial_state
           [("B", "Account a; a.Name"); ("A", "Account a; a.Name; a.Id")] ["Id"; "Name"]).
  - by vm_compute.
  - by vm_compute.
Defined.

(** * Further properties of the tracker *)

(** ** [get_field_usage] has no error return *)

Lemma sorted_items_sortable items : sortable (sorted_items items).
Proof.
  unfold sortable, sorted_items. destruct (py_sorted items) as [l|e] eqn:Hs; [|by exists []].
  unfold py_sorted in Hs. destruct items as [|x [|y items]]; [simplify_eq; eauto..|].
  destruct (the_strings (x :: y :: items)) as [strs|]; [|done].
  injection Hs as <-. rewrite py_sorted_strings. eauto.
Qed.

(** A merge, however it ends, leaves a list as it was or, under the merged
    category, appends the sorted items of its key. *)
Lemma merge_stored_any fu cat ud k c :
  NoDup fu.*1 →
  stored (_merge_usage_data fu cat ud).1 k c = stored ud k c
  ∨ (c = cat ∧ ∃ items, fu_get k fu = Some items
       ∧ stored (_merge_usage_data fu cat ud).1 k c
         = Some (default [] (stored ud k c) ++ sorted_items items)).
Proof.
  revert ud. induction fu as [|[k0 items0] fu IH]; intros ud Hkeys; [by left|].
  rewrite fmap_cons in Hkeys. apply NoDup_cons in Hkeys as [Hk0 Hkeys]. cbn [fst] in Hk0.
  apply assoc_None_keys in Hk0.
  rewrite merge_cons. unfold fu_get. cbn [assoc].
  pose proof (merge_field_stored cat k0 items0 ud k c) as Hfield.
  destruct (merge_field cat k0 items0 ud) as [ud1 [[]|e]]; cbn [fst] in *.
  - destruct (IH ud1 Hkeys) as [Hsame|(-> & items & Hitems & Hfinal)].
    + rewrite Hsame, Hfield. case_decide as Hkc; [|by left].
      destruct Hkc as [-> ->]. right. split; [done|]. exists items0.
      by rewrite String.eqb_refl.
    + right. split; [done|]. exists items.
      destruct (String.eqb_spec k k0) as [->|Hne].
      * unfold fu_get in Hitems. by rewrite Hk0 in Hitems.
      * split; [done|]. rewrite Hfinal, Hfield.
        by rewrite decide_False by (by intros [? ?]).
  - rewrite Hfield. case_decide as Hkc; [|by left].
    destruct Hkc as [-> ->]. right. split; [done|]. exists items0.
    by rewrite String.eqb_refl.
Qed.

Lemma sortable_nil : sortable [].
Proof. by exists []. Qed.

(** Whatever the collectors return and however the [try] block ends,
    [sorted] accepts every list of the index: each list was written by one
    [extend] with the output of [sorted]. *)
Lemma run_collectors_sortable steps obj ud st k c :
  (∀ step st', step ∈ steps → fu_wf (step.2 obj st').1) →
  NoDup steps.*1 →
  stored ud k c = None ∨ ((c ∉ steps.*1) ∧ sortable (default [] (stored ud k c))) →
  sortable (default [] (stored (run_collectors steps obj ud st).1.1 k c)).
Proof.
  revert ud st. induction steps as [|[cat collect] steps IH]; intros ud st Hwf Hcats Hud.
  - cbn. destruct Hud as [->|[_ ?]]; [apply sortable_nil|done].
  - rewrite run_collectors_cons. rewrite fmap_cons in Hcats.
    apply NoDup_cons in Hcats as [Hcat Hcats]. cbn [fst] in Hcat.
    pose proof (Hwf (cat, collect) st (list_elem_of_here _ _)) as [Hkeys _].
    cbn [snd] in Hkeys.
    pose proof (merge_stored_any (collect obj st).1 cat ud k c Hkeys) as Hmerge.
    assert (Hnext : stored (_merge_usage_data (collect obj st).1 cat ud).1 k c = None
                    ∨ ((c ∉ steps.*1)
                       ∧ sortable (default []
                           (stored (_merge_usage_data (collect obj st).1 cat ud).1 k c)))).
    { destruct Hmerge as [->|(-> & items & _ & ->)].
      - destruct Hud as [?|[Hin ?]]; [by left|]. right. split; [|done].
        intros Hc. apply Hin. rewrite fmap_cons. by apply list_elem_of_further.
      - right. split; [done|]. destruct Hud as [->|[Hin _]].
        + apply sorted_items_sortable.
        + destruct Hin. rewrite fmap_cons. apply list_elem_of_here. }
    destruct (_merge_usage_data (collect obj st).1 cat ud) as [ud1 [[]|e]]; cbn [fst] in *.
    + apply IH; [intros; apply Hwf; by apply list_elem_of_further|done..].
    + destruct Hnext as [->|[_ ?]]; [apply sortable_nil|done].
Qed.

Lemma collectors_categories self : NoDup (collectors self).*1.
Proof. unfold collectors. rewrite !fmap_cons. apply (bool_decide_unpack _). by vm_compute. Qed.

Lemma build_sortable self obj st :
  cache_sortable st → cache_sortable (_build_usage_cache_for_object self obj st).
Proof.
  intros Hst obj' idx k c items.
  destruct (decide (obj' = obj)) as [->|Hne].
  - rewrite build_cache_lookup. intros Heq Hitems. apply (inj Some) in Heq.
    pose proof (run_collectors_sortable (collectors self) obj ∅
                  (_log_status self (LogBuilding obj) st) k c
                  (λ step st' H, collectors_wf self step obj st' H)
                  (collectors_categories self) (or_introl eq_refl)) as Hs.
    rewrite Heq in Hs. by rewrite Hitems in Hs.
  - rewrite build_cache_other by done. apply Hst.
Qed.

Lemma session_sortable self requests st :
  cache_sortable st → cache_sortable (session self requests st).
Proof.
  revert st. induction requests as [|[obj fld] requests IH]; intros st Hst; [done|].
  cbn [session]. apply IH. rewrite get_field_usage_state.
  destruct (usage_cache st !! obj); [done|]. by apply build_sortable.
Qed.

Lemma format_usage_sortable (usage_data : usage_entry) :
  (∀ c items, usage_data !! c = Some items → sortable items) →
  ∃ out, format_usage usage_data = Ok out.
Proof.
  intros Hs. unfold format_usage.
  assert (∃ sections, rmap (section_lines usage_data) section_order = Ok sections)
    as [sections ->]; [|by eexists].
  generalize section_order. intros order. induction order as [|c order [sections IH]].
  - by exists [].
  - cbn [rmap]. rewrite IH.
    assert (∃ lines, section_lines usage_data c = Ok lines) as [lines ->];
      [|by eexists].
    unfold section_lines.
    destruct (usage_data !! c) as [[|item items]|] eqn:Hc; [by eexists| |by eexists].
    destruct (Hs _ _ Hc) as [l ->]. by eexists.
Qed.

(** X1.  [get_field_usage] never raises: after any sequence of calls on a
    fresh tracker, whatever the remote service answered (failures, nulls,
    records that are no mappings), a call returns a string. *)
Theorem get_field_usage_returns (self : tracker) (requests : list (string * string))
    (object_name field_api_name : string) :
  ∃ out, (get_field_usage self object_name field_api_name
            (session self requests initial_state)).1 = Ok out.
Proof.
  set (st := session self requests initial_state).
  assert (Hst : cache_sortable st).
  { apply session_sortable. intros obj idx k c items. cbn. by rewrite lookup_empty. }
  destruct (get_field_usage_caches self object_name field_api_name st) as [idx Hidx].
  rewrite <- (get_field_usage_answer self _ _ _ _ Hidx). cbn [fst].
  case_bool_decide; [by eexists|].
  apply format_usage_sortable. intros c items Hc.
  assert (Hfull : cache_sortable (get_field_usage self object_name field_api_name st).2).
  { rewrite get_field_usage_state. destruct (usage_cache st !! object_name); [done|].
    by apply build_sortable. }
  apply (Hfull object_name idx (object_name +:+ "." +:+ field_api_name) c items Hidx).
  revert Hc. unfold stored. destruct (idx !! _); [done|]. cbn. by rewrite lookup_empty.
Qed.
(** ** The cache only grows *)

Lemma get_field_usage_keeps self obj fld obj' st idx :
  usage_cache st !! obj' = Some idx →
  usage_cache (get_field_usage self obj fld st).2 !! obj' = Some idx.
Proof.
  intros Hidx. rewrite get_field_usage_state.
  destruct (usage_cache st !! obj) eqn:Hobj; [done|].
  rewrite build_cache_other; [done|]. intros ->. by rewrite Hobj in Hidx.
Qed.

(** X2.  An index, once in the cache, stays there unchanged: no later call
    of [get_field_usage], for the same or for another object, replaces or
    removes it. *)
Theorem cached_index_is_kept (self : tracker) (requests : list (string * string))
    (object_name : string) (st : state) (idx : usage_index) :
  usage_cache st !! object_name = Some idx →
  usage_cache (session self requests st) !! object_name = Some idx.
Proof.
  revert st. induction requests as [|[obj fld] requests IH]; intros st Hidx; [done|].
  cbn [session]. by apply IH, get_field_usage_keeps.
Qed.

Lemma cached_index_is_kept_witness :
  let st := (get_field_usage Sample.two_classes "Account" "Name" initial_state).2 in
  let later := session Sample.null_name [("Contact", "Id"); ("Account", "Id")] st in
  usage_cache st !! "Account" = Some (cached_index st "Account")
  ∧ usage_cache later !! "Account" = Some (cached_index st "Account")
  ∧ is_Some (usage_cache later !! "Contact").
Proof.
  split; [by vm_compute|]. split.
  - apply (cached_index_is_kept Sample.null_name [("Contact", "Id"); ("Account", "Id")]
             "Account"). by vm_compute.
  - eexists. vm_compute. reflexivity.
Defined.
(** ** The requests of a build *)

Lemma build_calls self obj st :
  calls (_build_usage_cache_for_object self obj st)
  = calls (run_collectors (collectors self) obj ∅ (_log_status self (LogBuilding obj) st)).2.
Proof.
  unfold _build_usage_cache_for_object.
  destruct (run_collectors _ _ _ _) as [[ud [[]|e]] st1]; cbn [snd].
  - by rewrite log_status_calls.
  - cbn [set_cache calls]. by rewrite log_status_calls.
Qed.

Lemma run_collectors_calls_any self obj ud st :
  match (run_collectors (collectors self) obj ud st).1.2 with
  | Ok _ =>
      calls (run_collectors (collectors self) obj ud st).2 = calls st ++ build_requests obj
  | Raise _ =>
      ∃ n, (1 ≤ n ≤ 10)%nat
           ∧ calls (run_collectors (collectors self) obj ud st).2
             = calls st ++ take n (build_requests obj)
  end.
Proof.
  unfold collectors, build_requests.
  repeat (rewrite run_collectors_cons;
          destruct (_merge_usage_data _ _ _) as [? [[]|?]]); cbn [run_collectors fst snd];
    unfold _get_visualforce_component_usage, _get_visualforce_page_usage,
      _get_trigger_usage, _get_apex_usage;
    rewrite ?page_layout_calls, ?direct_match_calls, ?validation_calls, <- ?app_assoc;
    try done.
  all: first [ exists 1%nat; split; [lia|reflexivity]
             | exists 3%nat; split; [lia|reflexivity]
             | exists 5%nat; split; [lia|reflexivity]
             | exists 7%nat; split; [lia|reflexivity]
             | exists 9%nat; split; [lia|reflexivity]
             | exists 10%nat; split; [lia|reflexivity] ].
Qed.

(** X3.  A build sends its requests in one fixed order, each at most
    once, starting with the validation rule query: when its [try] block
    completes the calls it adds are the ten requests of a build, and when
    the block is interrupted they are a non-empty initial part of them. *)
Theorem build_requests_in_order (self : tracker) (object_name : string) (st : state) :
  let built := _build_usage_cache_for_object self object_name st in
  match (run_collectors (collectors self) object_name ∅
           (_log_status self (LogBuilding object_name) st)).1.2 with
  | Ok _ => calls built = calls st ++ build_requests object_name
  | Raise _ =>
      ∃ n, (1 ≤ n ≤ 10)%nat ∧ calls built = calls st ++ take n (build_requests object_name)
  end.
Proof.
  cbv zeta. rewrite build_calls.
  pose proof (run_collectors_calls_any self object_name ∅
                (_log_status self (LogBuilding object_name) st)) as H.
  by rewrite log_status_calls in H.
Qed.
(** ** What a build logs *)

Section Logs.

Variable self : tracker.

(** What [_log_status] adds: the entry, or nothing without a callback. *)
Lemma log_status_log m st :
  log (_log_status self m st) = log st ++ (if status_callback self then [m] else []).
Proof. unfold _log_status. destruct (status_callback self); [done|]. by rewrite app_nil_r. Qed.

Lemma warnings_only_refl l : warnings_only (status_callback self) l l.
Proof. exists []. by rewrite app_nil_r. Qed.

Lemma warnings_only_trans l1 l2 l3 :
  warnings_only (status_callback self) l1 l2 →
  warnings_only (status_callback self) l2 l3 →
  warnings_only (status_callback self) l1 l3.
Proof.
  intros (e1 & -> & H1 & H1') (e2 & -> & H2 & H2'). exists (e1 ++ e2).
  rewrite app_assoc, forallb_app, H1, H2. split_and!; [done..|].
  intros Hc. by rewrite H1', H2'.
Qed.

Lemma warnings_only_log_status m st :
  is_warning m = true →
  warnings_only (status_callback self) (log st) (log (_log_status self m st)).
Proof.
  intros Hm. rewrite log_status_log. eexists. split; [done|].
  destruct (status_callback self); cbn; by rewrite ?Hm.
Qed.

Lemma tooling_query_log soql st :
  warnings_only (status_callback self) (log st) (log (_tooling_query self soql st).2).
Proof.
  unfold _tooling_query, restful.
  destruct (sf_restful self (calls st) (tooling_url soql)); cbn [snd].
  - apply warnings_only_refl.
  - by apply (warnings_only_log_status _
                {| usage_cache := usage_cache st; log := log st;
                   calls := calls st ++ [Restful (tooling_url soql)] |}).
Qed.

Lemma finish_log what out st :
  warnings_only (status_callback self) (log st) (log (finish self what out st).2).
Proof.
  destruct out as [fu [[]|e]]; cbn [finish snd].
  - apply warnings_only_refl.
  - by apply warnings_only_log_status.
Qed.

(** A collector writes warnings only. *)
Lemma collectors_log step obj st :
  step ∈ collectors self →
  warnings_only (status_callback self) (log st) (log (step.2 obj st).2).
Proof.
  assert (Hdirect : ∀ soql check column what,
             warnings_only (status_callback self) (log st)
               (log (direct_match_usage self soql check column what obj st).2)).
  { intros. unfold direct_match_usage.
    pose proof (tooling_query_log soql st) as Hq.
    destruct (_tooling_query self soql st) as [result st1]. unfold describe.
    eapply warnings_only_trans; [exact Hq|]. apply (finish_log _ _
      {| usage_cache := usage_cache st1; log := log st1;
         calls := calls st1 ++ [Describe obj] |}). }
  unfold collectors. rewrite !elem_of_cons, elem_of_nil.
  intros [->|[->|[->|[->|[->|[->|[]]]]]]]; cbn [snd]; try apply Hdirect.
  - unfold _get_validation_rule_usage.
    pose proof (tooling_query_log (validation_soql obj) st) as Hq.
    destruct (_tooling_query self (validation_soql obj) st) as [result st1].
    eapply warnings_only_trans; [exact Hq|]. apply finish_log.
  - unfold _get_page_layout_usage, restful.
    apply (finish_log _ _
      {| usage_cache := usage_cache st; log := log st;
         calls := calls st ++ [Restful (page_layout_url obj)] |}).
Qed.

Lemma run_collectors_log steps obj ud st :
  (∀ step st', step ∈ steps →
     warnings_only (status_callback self) (log st') (log (step.2 obj st').2)) →
  warnings_only (status_callback self) (log st) (log (run_collectors steps obj ud st).2).
Proof.
  revert ud st. induction steps as [|[cat collect] steps IH]; intros ud st Hsteps.
  - apply warnings_only_refl.
  - rewrite run_collectors_cons.
    pose proof (Hsteps (cat, collect) st (list_elem_of_here _ _)) as Hc. cbn [snd] in Hc.
    destruct (_merge_usage_data _ _ _) as [ud1 [[]|e]]; cbn [snd]; [|done].
    eapply warnings_only_trans; [exact Hc|]. apply IH.
    intros. apply Hsteps. by apply list_elem_of_further.
Qed.

End Logs.

(** X4.  With a callback attached a build logs that it starts, then only
    warnings of its collectors, then that the cache is built or, when the
    [try] block was interrupted, that it is incomplete, with the exception;
    without a callback it logs nothing. *)
Theorem build_log (self : tracker) (object_name : string) (st : state) :
  ∃ warnings,
    forallb is_warning warnings = true
    ∧ log (_build_usage_cache_for_object self object_name st)
      = if status_callback self
        then log st ++ LogBuilding object_name :: warnings
             ++ [match (run_collectors (collectors self) object_name ∅
                          (_log_status self (LogBuilding object_name) st)).1.2 with
                 | Ok _ => LogBuilt
                 | Raise e => LogIncomplete e
                 end]
        else log st.
Proof.
  destruct (run_collectors_log self (collectors self) object_name ∅
              (_log_status self (LogBuilding object_name) st)
              (λ step st' H, collectors_log self step object_name st' H))
    as (warnings & Hlog & Hwarnings & Hnone).
  exists warnings. split; [done|].
  unfold _build_usage_cache_for_object.
  destruct (run_collectors _ _ _ _) as [[ud [[]|e]] st1]; cbn [fst snd] in *;
    rewrite ?log_status_log; cbn [set_cache log]; rewrite ?log_status_log, Hlog;
    rewrite log_status_log; destruct (status_callback self);
    rewrite ?Hnone, ?app_nil_r by done; by rewrite <- ?app_assoc.
Qed.
(** ** The empty report *)

Lemma format_usage_entry_of entry :
  format_usage (entry_of entry) = Ok (ReportSpec.format entry).
Proof.
  unfold format_usage, ReportSpec.format.
  change section_order with (ReportSpec.category_name <$> ReportSpec.display_order).
  rewrite (rmap_fmap_ok _ _ (ReportSpec.section entry)) by apply section_lines_spec.
  cbn [rbind]. f_equal. apply (strip_report entry ReportSpec.display_order).
Qed.

Lemma rstrip_word c s : Text.is_space c = false → Text.rstrip (String c s) ≠ "".
Proof.
  intros Hc. cbn [Text.rstrip]. destruct (Text.rstrip s); [by rewrite Hc|done].
Qed.

Lemma join_head sep line rest :
  ∃ more, Text.join sep (line :: rest) = line +:+ more.
Proof.
  destruct rest as [|line' rest]; cbn [Text.join].
  - exists "". unfold String.app. induction line as [|c line IH]; cbn; [done|]. by rewrite <- IH.
  - by eexists.
Qed.

Lemma section_empty entry c :
  ReportSpec.section entry c = []
  ↔ entry !! ReportSpec.category_name c = None ∨ entry !! ReportSpec.category_name c = Some [].
Proof.
  unfold ReportSpec.section.
  destruct (entry !! ReportSpec.category_name c) as [[|n names]|]; split; auto; try done.
  by intros [?|?].
Qed.

(** X5.  The report of an entry of string names is the empty string
    exactly when none of the six categories has a name in the entry. *)
Theorem empty_report (entry : gmap string (list string)) :
  format_usage (entry_of entry) = Ok ""
  ↔ ∀ c, entry !! ReportSpec.category_name c = None
         ∨ entry !! ReportSpec.category_name c = Some [].
Proof.
  rewrite format_usage_entry_of. unfold ReportSpec.format. split.
  - intros Hempty c. apply section_empty.
    destruct (report_head entry ReportSpec.display_order) as [Hnil|(c' & rest & Hlines)].
    + assert (Hin : c ∈ ReportSpec.display_order).
      { unfold ReportSpec.display_order. destruct c; set_solver. }
      revert Hin Hnil. generalize ReportSpec.display_order. intros order Hin Hnil.
      induction order as [|c0 order IH]; [by apply elem_of_nil in Hin|].
      rewrite fmap_cons in Hnil. cbn [concat] in Hnil.
      apply app_eq_nil in Hnil as [H0 Hrest].
      apply elem_of_cons in Hin as [->|Hin]; auto.
    + rewrite Hlines in Hempty.
      destruct (join_head Text.newline (ReportSpec.category_name c') rest) as [more Hjoin].
      rewrite Hjoin in Hempty. exfalso.
      assert (Hr : Text.rstrip (ReportSpec.category_name c' +:+ more) = "") by congruence.
      revert Hr. destruct c'; by apply rstrip_word.
  - intros Hall. assert (Hnil : concat (ReportSpec.section entry <$> ReportSpec.display_order) = []).
    { generalize ReportSpec.display_order. intros order.
      induction order as [|c order IH]; [done|].
      rewrite fmap_cons. cbn [concat]. rewrite IH, app_nil_r. by apply section_empty. }
    by rewrite Hnil.
Qed.
(** ** [strip] *)

Lemma lstrip_idem s : Text.lstrip (Text.lstrip s) = Text.lstrip s.
Proof.
  induction s as [|c s IH]; [done|]. cbn [Text.lstrip].
  destruct (Text.is_space c) eqn:Hc; [done|]. cbn [Text.lstrip]. by rewrite Hc.
Qed.

Lemma rstrip_idem s : Text.rstrip (Text.rstrip s) = Text.rstrip s.
Proof.
  induction s as [|c s IH]; [done|]. cbn [Text.rstrip].
  destruct (Text.rstrip s) as [|d u] eqn:Hr.
  - destruct (Text.is_space c) eqn:Hc; [done|]. cbn [Text.rstrip]. by rewrite Hc.
  - cbn [Text.rstrip]. cbn [Text.rstrip] in IH. by rewrite IH.
Qed.

Lemma rstrip_lstrip t : Text.rstrip t = t → Text.rstrip (Text.lstrip t) = Text.lstrip t.
Proof.
  induction t as [|c t IH]; [done|]. intros Ht. cbn [Text.lstrip].
  destruct (Text.is_space c) eqn:Hc; [|done].
  apply IH. cbn [Text.rstrip] in Ht.
  destruct (Text.rstrip t) as [|d u]; [by rewrite Hc in Ht|]. by injection Ht.
Qed.

(** X6.  A report never starts or ends with whitespace: stripping it again,
    on either side, changes nothing. *)
Theorem report_is_stripped (usage_data : usage_entry) :
  match format_usage usage_data with
  | Ok report => Text.lstrip report = report ∧ Text.rstrip report = report
  | Raise _ => True
  end.
Proof.
  unfold format_usage. destruct (rmap _ _) as [sections|]; [|done]. cbn [rbind].
  unfold Text.strip. split; [apply lstrip_idem|]. apply rstrip_lstrip, rstrip_idem.
Qed.
(** ** The validation rule collector on well-formed rules *)




(** ** A record that is no mapping *)

Lemma for_each_app {S A} (step : A → mut S unit) xs ys s :
  for_each step (xs ++ ys) s =
  match for_each step xs s with
  | (s1, Ok _) => for_each step ys s1
  | (s1, Raise e) => (s1, Raise e)
  end.
Proof.
  revert s. induction xs as [|x xs IH]; intros s; [done|].
  rewrite <- app_comm_cons, !for_each_cons.
  destruct (step x s) as [s1 [[]|e]]; [apply IH|done].
Qed.

Lemma direct_match_scan_loop check column obj recs fields fu :
  direct_match_scan check column obj (Sample.records recs) (Sample.described fields) fu
  = for_each (direct_match_step check column obj (VStr <$> fields)) recs fu.
Proof.
  unfold direct_match_scan, bbind, blift.
  cbn [Sample.described py_getitem assoc String.eqb Ascii.eqb Bool.eqb py_iter].
  rewrite described_field_names.
  by cbn [Sample.records py_get assoc String.eqb Ascii.eqb Bool.eqb default from_option id
          py_iter].
Qed.

(** X8.  When a record of the answer is no mapping, a direct collector
    stops there: it returns what the records before it gave, ignores the
    records after it, and logs the [AttributeError] (when a callback is
    attached). *)
Theorem direct_match_partial (self : tracker) (c : direct_collector) (object_name : string)
    (st : state) (entities : list (string * string)) (bad : value) (rest : list value)
    (fields : list string) :
  sf_restful self (calls st) (tooling_url (direct_soql c object_name))
  = Ok (Sample.records
          (((λ nb, Sample.entity (direct_column c) (VStr nb.1) (VStr nb.2)) <$> entities)
           ++ bad :: rest)) →
  sf_describe self (calls st ++ [Restful (tooling_url (direct_soql c object_name))])
    object_name = Ok (Sample.described fields) →
  py_get bad "Name" (VStr "") = Raise AttributeError →
  log (direct_run self c object_name st).2
  = log st ++ (if status_callback self
               then [LogCouldNotQuery (direct_label c) AttributeError] else [])
  ∧ ∀ f n, recorded (direct_run self c object_name st).1 (object_name +:+ "." +:+ f) (Some n)
           ↔ f ∈ fields
             ∧ ∃ text, (n, text) ∈ entities ∧ text ≠ ""
                       ∧ (tests_object c = true → Text.contains text object_name = true)
                       ∧ Text.contains text f = true.
Proof.
  intros Hquery Hdescribe Hbad.
  assert (Hgen : ∀ soql check column what,
    String.eqb column "Name" = false →
    sf_restful self (calls st) (tooling_url soql)
    = Ok (Sample.records
            (((λ nb, Sample.entity column (VStr nb.1) (VStr nb.2)) <$> entities)
             ++ bad :: rest)) →
    sf_describe self (calls st ++ [Restful (tooling_url soql)]) object_name
    = Ok (Sample.described fields) →
    log (direct_match_usage self soql check column what object_name st).2
    = log st ++ (if status_callback self then [LogCouldNotQuery what AttributeError] else [])
    ∧ ∀ f n, recorded (direct_match_usage self soql check column what object_name st).1
                      (object_name +:+ "." +:+ f) (Some n)
             ↔ f ∈ fields
               ∧ ∃ text, (n, text) ∈ entities ∧ text ≠ ""
                         ∧ (check = true → Text.contains text object_name = true)
                         ∧ Text.contains text f = true).
  { intros soql check column what Hcol Hq Hd.
    destruct (direct_match_scan_strings check column object_name Hcol entities fields)
      as [Hok Hrec].
    unfold entities_response in Hok, Hrec. rewrite direct_match_scan_loop in Hok, Hrec.
    assert (Hscan : ∃ fu1,
      for_each (direct_match_step check column object_name (VStr <$> fields))
        (((λ nb, Sample.entity column (VStr nb.1) (VStr nb.2)) <$> entities) ++ bad :: rest)
        [] = (fu1, Raise AttributeError)
      ∧ ∀ f n, recorded fu1 (object_name +:+ "." +:+ f) (Some n)
               ↔ f ∈ fields
                 ∧ ∃ text, (n, text) ∈ entities ∧ text ≠ ""
                           ∧ (check = true → Text.contains text object_name = true)
                           ∧ Text.contains text f = true).
    { rewrite for_each_app.
      match type of Hok with (?t).2 = _ => destruct t as [fu1 [[]|e]] end;
        cbn [fst snd] in Hok, Hrec; [|discriminate Hok].
      exists fu1. split; [|exact Hrec].
      rewrite for_each_cons. unfold direct_match_step, bbind, blift. by rewrite Hbad. }
    destruct Hscan as (fu1 & Hscan & Hfu1).
    unfold direct_match_usage, _tooling_query, restful, describe. rewrite Hq.
    cbn [calls]. rewrite Hd, direct_match_scan_loop, Hscan.
    cbn [finish fst snd]. split; [|exact Hfu1].
    by rewrite log_status_log. }
  destruct c; by apply Hgen.
Qed.

Lemma direct_match_partial_witness :
  let self := Sample_broken_listing in
  py_get VNone "Name" (VStr "") = Raise AttributeError
  ∧ (_get_apex_usage self "Account" initial_state).1 = [("Account.Name", [Some "A"])]
  ∧ log (_get_apex_usage self "Account" initial_state).2
    = [LogCouldNotQuery "Apex classes" AttributeError]
  ∧ ∀ f n, recorded (_get_apex_usage self "Account" initial_state).1
                    ("Account" +:+ "." +:+ f) (Some n)
           ↔ f ∈ ["Name"]
             ∧ ∃ text, (n, text) ∈ [("A", "Account a; a.Name")] ∧ text ≠ ""
                       ∧ (true = true → Text.contains text "Account" = true)
                       ∧ Text.contains text f = true.
Proof.
  split; [done|]. split; [by vm_compute|].
  apply (direct_match_partial Sample_broken_listing ApexClassCollector "Account"
           initial_state [("A", "Account a; a.Name")] VNone
           [Sample.entity "Body" (VStr "B") (VStr "Account b; b.Name")] ["Name"]);
    by vm_compute.
Defined.
(** ** [_merge_usage_data] appends *)

(** X9.  A merge never removes or reorders what the index holds: under the
    merged category a list is what it was with names appended, under every
    other category it is what it was; and this is so even when the merge is
    interrupted by an exception. *)
Theorem merge_only_appends (field_usage : field_usage) (category : string)
    (usage_data : usage_index) (field_key c : string) :
  let merged := (_merge_usage_data field_usage category usage_data).1 in
  if decide (c = category)
  then ∃ added, stored merged field_key c = None ∧ stored usage_data field_key c = None
                ∨ stored merged field_key c
                  = Some (default [] (stored usage_data field_key c) ++ added)
  else stored merged field_key c = stored usage_data field_key c.
Proof.
  cbv zeta. case_decide as Hc; [subst c|by apply merge_stored_other].
  unfold _merge_usage_data.
  apply (for_each_invariant
           (λ ud', ∃ added,
              stored ud' field_key category = None ∧ stored usage_data field_key category = None
              ∨ stored ud' field_key category
                = Some (default [] (stored usage_data field_key category) ++ added))).
  - destruct (stored usage_data field_key category) as [old|] eqn:Hold.
    + exists []. right. by rewrite app_nil_r.
    + exists []. by left.
  - intros [k items] ud' _ [added IH]. cbn [fst snd]. rewrite merge_field_stored.
    case_decide as Hk.
    + destruct Hk as [<- _].
      destruct IH as [[-> ->] | ->]; eexists; right; cbn [default from_option id]; [done|].
      by rewrite <- app_assoc.
    + by exists added.
Qed.

(** X10.  Merging is not idempotent: when a mapping is merged a second time
    under the same category, the sorted names of each of its keys are
    appended once more. *)
Theorem merge_twice_duplicates (field_usage : field_usage) (category : string)
    (usage_data merged1 merged2 : usage_index) (field_key : string) (items : list name) :
  NoDup field_usage.*1 →
  _merge_usage_data field_usage category usage_data = (merged1, Ok tt) →
  _merge_usage_data field_usage category merged1 = (merged2, Ok tt) →
  fu_get field_key field_usage = Some items →
  stored merged2 field_key category
  = Some (default [] (stored usage_data field_key category)
          ++ sorted_items items ++ sorted_items items).
Proof.
  intros Hkeys H1 H2 Hk.
  rewrite (merge_stored _ _ _ _ field_key category Hkeys H2).
  rewrite decide_True, Hk by done.
  rewrite (merge_stored _ _ _ _ field_key category Hkeys H1).
  rewrite decide_True, Hk by done. cbn [from_option id].
  by rewrite <- app_assoc.
Qed.

Lemma merge_twice_duplicates_witness :
  let fu : field_usage := [("Account.Name", [Some "B"; Some "A"])] in
  let merged1 := (_merge_usage_data fu "Apex Classes" ∅).1 in
  let merged2 := (_merge_usage_data fu "Apex Classes" merged1).1 in
  stored merged2 "Account.Name" "Apex Classes" = Some [Some "A"; Some "B"; Some "A"; Some "B"].
Proof.
  intros fu merged1 merged2.
  rewrite (merge_twice_duplicates fu "Apex Classes" ∅ merged1 merged2 "Account.Name"
             [Some "B"; Some "A"]); [by vm_compute|..].
  - apply (bool_decide_unpack _). by vm_compute.
  - by vm_compute.
  - by vm_compute.
  - by vm_compute.
Defined.
(** ** The lists of the index are sorted *)

Lemma sorted_items_ascending items :
  Forall is_Some items → NoDup items → ascending_names (sorted_items items).
Proof.
  intros Hitems Hnd.
  assert (∃ strs, items = Some <$> strs) as [strs ->].
  { clear Hnd. induction Hitems as [|x items [s ->] _ [strs ->]]; [by exists []|].
    by exists (s :: strs). }
  unfold sorted_items. rewrite py_sorted_strings. exists (ReportSpec.ascending strs).
  split_and!; [done|apply ascending_sorted|].
  rewrite ascending_perm. by apply (NoDup_fmap_1 Some).
Qed.

Lemma run_collectors_ascending steps obj ud st k c :
  (∀ step st', step ∈ steps → fu_wf (step.2 obj st').1 ∧ fu_full (step.2 obj st').1) →
  NoDup steps.*1 →
  stored ud k c = None ∨ ((c ∉ steps.*1) ∧ ascending_names (default [] (stored ud k c))) →
  ascending_names (default [] (stored (run_collectors steps obj ud st).1.1 k c)).
Proof.
  assert (Hnil : ascending_names []).
  { exists []. split_and!; [done|constructor|apply NoDup_nil_2]. }
  revert ud st. induction steps as [|[cat collect] steps IH]; intros ud st Hsteps Hcats Hud.
  - cbn. by destruct Hud as [->|[_ ?]].
  - rewrite run_collectors_cons. rewrite fmap_cons in Hcats.
    apply NoDup_cons in Hcats as [Hcat Hcats]. cbn [fst] in Hcat.
    pose proof (Hsteps (cat, collect) st (list_elem_of_here _ _)) as [[Hkeys Hsets] Hfull].
    cbn [snd] in Hkeys, Hsets, Hfull.
    pose proof (merge_stored_any (collect obj st).1 cat ud k c Hkeys) as Hmerge.
    assert (Hnext : stored (_merge_usage_data (collect obj st).1 cat ud).1 k c = None
                    ∨ ((c ∉ steps.*1)
                       ∧ ascending_names (default []
                           (stored (_merge_usage_data (collect obj st).1 cat ud).1 k c)))).
    { destruct Hmerge as [->|(-> & items & Hitems & ->)].
      - destruct Hud as [?|[Hin ?]]; [by left|]. right. split; [|done].
        intros Hc. apply Hin. rewrite fmap_cons. by apply list_elem_of_further.
      - right. split; [done|]. destruct Hud as [->|[Hin _]].
        + apply assoc_elem_of in Hitems. unfold fu_full in Hfull.
          rewrite Forall_forall in Hsets, Hfull.
          apply sorted_items_ascending; [apply (Hfull _ Hitems)|apply (Hsets _ Hitems)].
        + destruct Hin. rewrite fmap_cons. apply list_elem_of_here. }
    destruct (_merge_usage_data (collect obj st).1 cat ud) as [ud1 [[]|e]]; cbn [fst] in *.
    + apply IH; [intros; apply Hsteps; by apply list_elem_of_further|done..].
    + by destruct Hnext as [->|[_ ?]].
Qed.

(** X11.  When every entity name the remote service returns is a string,
    every list in the cache is in ascending order and has no name twice,
    after any sequence of calls on a fresh tracker. *)
Theorem cached_lists_are_sorted (self : tracker) (requests : list (string * string))
    (object_name field_key category : string) :
  (∀ trace url, names_are_strings (sf_restful self trace url) = true) →
  ascending_names
    (default [] (stored (cached_index (session self requests initial_state) object_name)
                        field_key category)).
Proof.
  intros Hnames.
  assert (Hnil : ascending_names []).
  { exists []. split_and!; [done|constructor|apply NoDup_nil_2]. }
  assert (Hinv : ∀ st, (∀ obj k c, ascending_names (default [] (stored (cached_index st obj) k c)))
                 → ∀ reqs obj k c,
                     ascending_names
                       (default [] (stored (cached_index (session self reqs st) obj) k c))).
  { intros st Hst reqs. revert st Hst.
    induction reqs as [|[obj fld] reqs IH]; intros st Hst; [done|].
    cbn [session]. apply IH. intros obj' k c. rewrite get_field_usage_state.
    destruct (usage_cache st !! obj) eqn:Hobj; [done|].
    unfold cached_index. destruct (decide (obj' = obj)) as [->|Hne].
    - rewrite build_cache_lookup. cbn [from_option id].
      apply run_collectors_ascending; [|apply collectors_categories|by left].
      intros step st' Hstep. split; [by apply (collectors_wf self)|].
      by apply (collectors_full self).
    - rewrite build_cache_other by done. apply Hst. }
  apply Hinv. intros obj k c. unfold cached_index, stored. cbn.
  by rewrite lookup_empty.
Qed.

Lemma cached_lists_are_sorted_witness :
  (∀ trace url, names_are_strings (sf_restful Sample.two_classes trace url) = true)
  ∧ stored (cached_index (session Sample.two_classes [("Account", "Name")] initial_state)
              "Account") "Account.Name" "Apex Classes" = Some [Some "A"; Some "B"]
  ∧ ascending_names
      (default [] (stored (cached_index
                             (session Sample.two_classes [("Account", "Name")] initial_state)
                             "Account") "Account.Name" "Apex Classes")).
Proof.
  assert (H : ∀ trace url,
             names_are_strings (sf_restful Sample.two_classes trace url) = true).
  { intros trace url. cbn [Sample.two_classes sf_restful].
    destruct (String.eqb url _); [by vm_compute|].
    destruct (String.eqb url _); by vm_compute. }
  split; [done|]. split; [by vm_compute|].
  by apply (cached_lists_are_sorted Sample.two_classes).
Defined.
(** ** [quote] loses nothing *)

Lemma unquote_quote_char c rest : unquote (quote_char c +:+ rest) = String c (unquote rest).
Proof.
  unfold quote_char, String.app.
  destruct (always_safe c || Ascii.eqb c "/") eqn:Hsafe.
  - cbn [String.append unquote].
    destruct (Ascii.eqb_spec c "%") as [->|]; [done|done].
  - cbn [Text.hex2 String.append unquote Ascii.eqb Bool.eqb]. f_equal.
    clear Hsafe. by destruct c as [[] [] [] [] [] [] [] []].
Qed.

Lemma unquote_quote s : unquote (quote s) = s.
Proof.
  induction s as [|c s IH]; [done|]. cbn [quote].
  by rewrite unquote_quote_char, IH.
Qed.

(** X12.  Two query texts that [_tooling_query] turns into the same URL
    are the same text: percent-decoding the encoded text gives it back. *)
Theorem tooling_url_injective (soql soql' : string) :
  tooling_url soql = tooling_url soql' → soql = soql'.
Proof.
  unfold tooling_url. intros H%(inj (String.app _)).
  by rewrite <- (unquote_quote soql), H, unquote_quote.
Qed.

Lemma tooling_url_injective_witness :
  tooling_url (validation_soql "Account") = tooling_url (validation_soql "Account")
  ∧ unquote (quote (validation_soql "Account")) = validation_soql "Account"
  ∧ validation_soql "Account" = validation_soql "Account".
Proof.
  split; [done|]. split; [by vm_compute|].
  by apply (tooling_url_injective (validation_soql "Account") (validation_soql "Account")).
Defined.

(** X13.  [quote] works character by character and keeps letters, digits
    and the characters [_.-~/]: a text made of them is sent as it is, and
    what follows it is encoded on its own. *)
Theorem quote_keeps_safe_text (s rest : string) :
  forallb (λ c, always_safe c || Ascii.eqb c "/") (Text.chars s) = true →
  quote (s +:+ rest) = s +:+ quote rest.
Proof.
  unfold String.app. induction s as [|c s IH]; [done|].
  cbn [Text.chars forallb String.append quote]. intros [Hc Hs]%andb_true_iff.
  rewrite (IH Hs). unfold quote_char. by rewrite Hc.
Qed.

Lemma quote_keeps_safe_text_witness :
  forallb (λ c, always_safe c || Ascii.eqb c "/") (Text.chars "Account__c") = true
  ∧ quote ("Account__c" +:+ "'") = "Account__c" +:+ "%27".
Proof.
  split; [by vm_compute|].
  by rewrite (quote_keeps_safe_text "Account__c" "'").
Defined.
(** ** Python's [in] on strings *)

Lemma starts_with_app p s : Text.starts_with p s = true ↔ ∃ post, s = p +:+ post.
Proof.
  revert s. induction p as [|a p IH]; intros s; cbn [Text.starts_with].
  - split; [by exists s|done].
  - destruct s as [|b s].
    + split; [done|]. by intros [post [=]].
    + destruct (Ascii.eqb_spec a b) as [->|Hne].
      * rewrite IH. split; intros [post Hs]; exists post.
        -- unfold String.app in *. cbn [String.append]. by rewrite <- Hs.
        -- unfold String.app in *. cbn [String.append] in Hs. by simplify_eq.
      * split; [done|]. intros [post Hs]. unfold String.app in Hs.
        cbn [String.append] in Hs. by simplify_eq.
Qed.

(** X14.  The test [needle in text] the collectors make holds exactly when
    the text can be cut into a part before the needle, the needle, and a
    part after it; in particular the empty needle is in every text. *)
Theorem contains_substring (hay needle : string) :
  Text.contains hay needle = true ↔ ∃ pre post, hay = pre +:+ needle +:+ post.
Proof.
  induction hay as [|c hay IH]; cbn [Text.contains].
  - rewrite orb_false_r, starts_with_app. split.
    + intros [post ->]. by exists "", post.
    + intros (pre & post & Hs). destruct pre; [by exists post|done].
  - rewrite orb_true_iff, starts_with_app, IH. split.
    + intros [[post ->]|(pre & post & ->)]; [by exists "", post|].
      by exists (String c pre), post.
    + intros (pre & post & Hs). destruct pre as [|c' pre].
      * left. by exists post.
      * right. exists pre, post. unfold String.app in *. cbn [String.append] in Hs.
        by simplify_eq.
Qed.

(** ** The extractor, text by text *)

Section Tokens.

Import Regex TokenSpec.

Lemma cons_run_app w runs more : cons_run w (runs ++ more) = cons_run w runs ++ more.
Proof. by destruct w. Qed.

Lemma split_runs_sep s sep t :
  Text.is_word sep = false →
  split_runs (s +:+ String sep t) = ((split_runs s).1, (split_runs s).2 ++ word_runs t).
Proof.
  intros Hsep. unfold String.app. induction s as [|c s IH]; cbn [String.append split_runs].
  - rewrite Hsep. unfold word_runs. by destruct (split_runs t).
  - rewrite IH. destruct (split_runs s) as [w runs]. cbn [fst snd].
    destruct (Text.is_word c); [done|]. by rewrite cons_run_app.
Qed.

(** X15.  The extractor works word by word: the tokens of two texts joined
    by a character that is no letter, digit or underscore are the tokens of
    the first followed by the tokens of the second. *)
Theorem findall_separated (s : string) (sep : ascii) (t : string) :
  Text.is_word sep = false →
  findall (s +:+ String sep t) = findall s ++ findall t.
Proof.
  intros Hsep. rewrite !findall_tokens. unfold tokens, word_runs at 1.
  rewrite split_runs_sep by done. cbn [fst snd].
  by rewrite cons_run_app, List.filter_app.
Qed.

Lemma findall_separated_witness :
  Text.is_word "."%char = false
  ∧ findall ("Account__c" +:+ String "." "Status__c") = ["Account__c"; "Status__c"].
Proof.
  split; [done|]. by rewrite (findall_separated "Account__c" "." "Status__c").
Defined.

Lemma split_runs_word w :
  forallb Text.is_word (Text.chars w) = true → split_runs w = (w, []).
Proof.
  induction w as [|c w IH]; [done|]. cbn [Text.chars forallb split_runs].
  intros [Hc Hw]%andb_true_iff. by rewrite (IH Hw), Hc.
Qed.

(** X16.  On a text that is one identifier the extractor returns the
    identifier when it starts with a letter and ends in [__c] after it,
    and nothing otherwise. *)
Theorem findall_identifier (w : string) :
  forallb Text.is_word (Text.chars w) = true →
  findall w = if is_custom_field w then [w] else [].
Proof.
  intros Hw. rewrite findall_tokens. unfold tokens, word_runs.
  rewrite (split_runs_word w Hw). cbn [fst snd].
  destruct w as [|c w]; [done|]. cbn [cons_run List.filter].
  by destruct (is_custom_field (String c w)).
Qed.

Lemma findall_identifier_witness :
  forallb Text.is_word (Text.chars "Status__c") = true
  ∧ findall "Status__c" = ["Status__c"]
  ∧ findall "Status_c" = [] ∧ findall "__c" = [] ∧ findall "9x__c" = [].
Proof.
  split; [done|]. split; [|by vm_compute].
  by rewrite (findall_identifier "Status__c").
Defined.

End Tokens.
(** * Properties of the API version detector *)

Section ConfigFacts.

Variable requests_get : string → list (string * string) → result http_response.

Lemma last_item_snoc earlier x : last_item (VList (earlier ++ [x])) = Ok x.
Proof. cbn [last_item]. by rewrite last_snoc. Qed.

Lemma usable_versions_snoc earlier x : usable_versions (VList (earlier ++ [x])) = true.
Proof.
  unfold usable_versions. cbn [py_truthy]. rewrite length_app. cbn [length].
  destruct (length earlier); by rewrite ?Nat.add_1_r.
Qed.

(** X17.  On a 200 answer whose body is a list ending in a mapping, the
    detector returns the [version] entry of that last mapping, whatever
    the order of the list, and the fallback when the mapping has none. *)
Theorem latest_version_is_last (base_url : string) (headers : list (string * string))
    (fallback_version : string) (earlier : list value) (entry : list (string * value)) :
  requests_get (base_url +:+ "/services/data/") headers
  = Ok {| status_code := 200; json := Ok (VList (earlier ++ [VDict entry])) |} →
  get_latest_version_from_org requests_get base_url headers fallback_version
  = default (VStr fallback_version) (assoc "version" entry).
Proof.
  intros Hget. unfold get_latest_version_from_org, latest_version_attempt.
  rewrite Hget. cbn [rbind status_code json Z.eqb Pos.eqb].
  by rewrite usable_versions_snoc, last_item_snoc.
Qed.


(** X19.  On a 200 answer whose body is a list, the listing of all
    versions returns the list when every element has a [version] entry and
    the empty list when one has none: reading the entries for the message
    raises, and the [except] clause drops the answer. *)
Theorem all_versions_need_version (base_url : string) (headers : list (string * string))
    (versions : list value) :
  requests_get (base_url +:+ "/services/data/") headers
  = Ok {| status_code := 200; json := Ok (VList versions) |} →
  get_all_available_versions requests_get base_url headers
  = if forallb has_version versions then VList versions else VList [].
Proof.
  intros Hget. unfold get_all_available_versions, all_versions_attempt.
  rewrite Hget. cbn [rbind status_code json Z.eqb Pos.eqb py_iter].
  assert (Hrmap : match rmap (λ v, py_getitem v "version") versions with
                  | Ok _ => forallb has_version versions = true
                  | Raise _ => forallb has_version versions = false
                  end).
  { clear Hget. induction versions as [|v versions IH]; [done|]. cbn [rmap forallb].
    unfold has_version at 1 3.
    destruct (py_getitem v "version"); cbn [rbind andb]; [|done].
    destruct (rmap _ versions); cbn [rbind]; exact IH. }
  destruct (rmap _ versions); cbn [rbind]; by rewrite Hrmap.
Qed.

End ConfigFacts.

Lemma latest_version_is_last_witness :
  let get : string → list (string * string) → result http_response :=
    λ _ _, Ok {| status_code := 200;
                 json := Ok (VList ([VDict [("version", VStr "64.0")]]
                                    ++ [VDict [("version", VStr "54.0")]])) |} in
  get ("https://example" +:+ "/services/data/") []
  = Ok {| status_code := 200;
          json := Ok (VList ([VDict [("version", VStr "64.0")]]
                             ++ [VDict [("version", VStr "54.0")]])) |}
  ∧ get_latest_version_from_org get "https://example" [] "50.0" = VStr "54.0".
Proof.
  intros get. split; [done|].
  by rewrite (latest_version_is_last get "https://example" [] "50.0"
                [VDict [("version", VStr "64.0")]] [("version", VStr "54.0")]).
Defined.

Lemma all_versions_need_version_witness :
  let get : string → list (string * string) → result http_response :=
    λ _ _, Ok {| status_code := 200;
                 json := Ok (VList [VDict [("version", VStr "64.0")];
                                    VDict [("label", VStr "Winter")]]) |} in
  get ("https://example" +:+ "/services/data/") []
  = Ok {| status_code := 200;
          json := Ok (VList [VDict [("version", VStr "64.0")];
                             VDict [("label", VStr "Winter")]]) |}
  ∧ get_all_available_versions get "https://example" [] = VList [].
Proof.
  intros get. split; [done|].
  by rewrite (all_versions_need_version get "https://example" []
                [VDict [("version", VStr "64.0")]; VDict [("label", VStr "Winter")]]).
Defined.
(** * One build per object *)

Lemma builds_logged_app obj l1 l2 :
  builds_logged obj (l1 ++ l2) = (builds_logged obj l1 + builds_logged obj l2)%nat.
Proof. unfold builds_logged. by rewrite List.filter_app, length_app. Qed.

Lemma builds_logged_warnings obj warnings :
  forallb is_warning warnings = true → builds_logged obj warnings = 0%nat.
Proof.
  unfold builds_logged. induction warnings as [|w warnings IH]; [done|].
  cbn [forallb List.filter]. intros [Hw Hws]%andb_true_iff.
  destruct w; try done; cbn [is_building]; by apply IH.
Qed.

Section OneBuild.

Variable self : tracker.
Hypothesis attached : status_callback self = true.

Lemma build_builds_logged obj obj' st :
  builds_logged obj' (log (_build_usage_cache_for_object self obj st))
  = (builds_logged obj' (log st) + if String.eqb obj obj' then 1 else 0)%nat.
Proof.
  destruct (build_log self obj st) as (warnings & Hwarnings & ->). rewrite attached.
  rewrite builds_logged_app. f_equal.
  change (LogBuilding obj :: warnings ++ [?last])
    with ([LogBuilding obj] ++ warnings ++ [last]).
  rewrite !builds_logged_app, (builds_logged_warnings _ _ Hwarnings).
  unfold builds_logged. cbn [List.filter is_building].
  destruct (String.eqb obj obj'); by destruct (run_collectors _ _ _ _).1.2.
Qed.

(** The log counts one build for each object in the cache and none for
    the others. *)
Lemma session_builds_logged requests st :
  (∀ obj, builds_logged obj (log st)
          = if usage_cache st !! obj is Some _ then 1%nat else 0%nat) →
  ∀ obj, builds_logged obj (log (session self requests st))
         = if usage_cache (session self requests st) !! obj is Some _ then 1%nat else 0%nat.
Proof.
  revert st. induction requests as [|[o fld] requests IH]; intros st Hst; [done|].
  cbn [session]. apply IH. intros obj. rewrite get_field_usage_state.
  destruct (usage_cache st !! o) eqn:Ho; [done|].
  rewrite build_builds_logged, Hst.
  destruct (String.eqb_spec o obj) as [->|Hne].
  - rewrite Ho, build_cache_lookup. done.
  - rewrite build_cache_other by done. destruct (usage_cache st !! obj); lia.
Qed.

Lemma session_cached requests st obj :
  is_Some (usage_cache (session self requests st) !! obj)
  ↔ is_Some (usage_cache st !! obj) ∨ obj ∈ requests.*1.
Proof.
  revert st. induction requests as [|[o fld] requests IH]; intros st.
  - cbn. split; [by left|]. intros [?|H]; [done|]. by apply elem_of_nil in H.
  - cbn [session]. rewrite IH, fmap_cons, elem_of_cons. cbn [fst].
    rewrite get_field_usage_state.
    destruct (usage_cache st !! o) eqn:Ho.
    + split; [intros [?|?]; auto|]. intros [?|[->|?]]; auto; left; by rewrite ?Ho.
    + destruct (decide (obj = o)) as [->|Hne].
      * rewrite build_cache_lookup. split; [auto|]. intros _. left. by eexists.
      * rewrite build_cache_other by done. split; [intros [?|?]; auto|].
        intros [?|[?|?]]; auto. done.
Qed.

End OneBuild.

(** X20.  With a callback attached, the log of a session on a fresh tracker
    records exactly one build for every object that was asked about,
    however many fields of it were asked and in whatever order, and none
    for any other object. *)
Theorem one_build_per_object (self : tracker) (requests : list (string * string))
    (object_name : string) :
  status_callback self = true →
  builds_logged object_name (log (session self requests initial_state))
  = if bool_decide (object_name ∈ requests.*1) then 1%nat else 0%nat.
Proof.
  intros Hattached.
  rewrite (session_builds_logged self Hattached requests initial_state)
    by (intros obj; cbn; by rewrite lookup_empty).
  pose proof (session_cached self requests initial_state object_name) as Hcached.
  cbn [initial_state usage_cache] in Hcached. rewrite lookup_empty in Hcached.
  case_bool_decide as Hin.
  - destruct (proj2 Hcached (or_intror Hin)) as [idx ->]. done.
  - destruct (usage_cache _ !! object_name) eqn:Hc; [|done].
    destruct (proj1 Hcached (mk_is_Some _ _ eq_refl)) as [[? [=]]|?]; done.
Qed.

Lemma one_build_per_object_witness :
  status_callback Sample.two_classes = true
  ∧ builds_logged "Account"
      (log (session Sample.two_classes
              [("Account", "Name"); ("Contact", "Id"); ("Account", "Id")] initial_state))
    = 1%nat.
Proof.
  split; [done|].
  by rewrite (one_build_per_object Sample.two_classes
                [("Account", "Name"); ("Contact", "Id"); ("Account", "Id")] "Account").
Defined.
(** * A catalog that cannot be read *)

(** X21.  When the field catalog of the object cannot be read, a direct
    collector returns the empty mapping whatever its query answered, and
    logs the error of the catalog after what the query itself logged. *)
Theorem catalog_failure_gives_nothing (self : tracker) (c : direct_collector)
    (object_name : string) (st : state) (e : exn) :
  sf_describe self (calls st ++ [Restful (tooling_url (direct_soql c object_name))])
    object_name = Raise e →
  (direct_run self c object_name st).1 = []
  ∧ log (direct_run self c object_name st).2
    = log (_tooling_query self (direct_soql c object_name) st).2
      ++ (if status_callback self then [LogCouldNotQuery (direct_label c) e] else []).
Proof.
  intros Hdescribe.
  assert (Hgen : ∀ soql check column what,
    sf_describe self (calls st ++ [Restful (tooling_url soql)]) object_name = Raise e →
    (direct_match_usage self soql check column what object_name st).1 = []
    ∧ log (direct_match_usage self soql check column what object_name st).2
      = log (_tooling_query self soql st).2
        ++ (if status_callback self then [LogCouldNotQuery what e] else [])).
  { intros soql check column what Hd.
    unfold direct_match_usage, _tooling_query, restful, describe.
    destruct (sf_restful self (calls st) (tooling_url soql)) as [response|e'];
      cbn [calls fst snd]; rewrite ?log_status_calls; cbn [calls];
      rewrite Hd; cbn [finish fst snd]; (split; [done|]);
      by rewrite !log_status_log. }
  destruct c; by apply Hgen.
Qed.

Lemma catalog_failure_gives_nothing_witness :
  sf_describe Sample_no_catalog
    (calls initial_state ++ [Restful (tooling_url (direct_soql ApexClassCollector "Account"))])
    "Account" = Raise (RemoteError "no such object")
  ∧ (_get_apex_usage Sample_no_catalog "Account" initial_state).1 = []
  ∧ log (_get_apex_usage Sample_no_catalog "Account" initial_state).2
    = [LogCouldNotQuery "Apex classes" (RemoteError "no such object")].
Proof.
  split; [done|].
  apply (catalog_failure_gives_nothing Sample_no_catalog ApexClassCollector "Account"
           initial_state (RemoteError "no such object")).
  done.
Defined.
